(** * March-Madness bracket API: the entry store of [main.py] and [models.py]

    A shallow embedding of the request handlers of [main.py] over the
    [entries] table declared in [models.py], and the properties of the
    entry/bracket lifecycle proved about it.

    Conventions of the embedding.
    - A Python [str] is a Rocq [string]; its characters are the code points
      0..255, on which [lower] and [strip] are given in full.
    - The table is the list of its rows in insertion order; a handler is a
      function from the table to an outcome and the table it leaves.
    - A Python [dict] is an association list in insertion order; the JSON
      documents are those without floating-point numbers. *)

From Stdlib Require Import ZArith List Bool Ascii String Lia.
From Stdlib Require Import DecimalString DecimalFacts DecimalPos DecimalZ.
From Stdlib Require Import Sorting.Sorted Sorting.Permutation.
Import ListNotations.

Local Open Scope string_scope.
Local Open Scope Z_scope.

(* ================================================================= *)
(** ** Python strings *)

Module Str.

Definition code (c : ascii) : nat := nat_of_ascii c.

(** [str.isspace] on one character: the white-space code points below 256. *)
Definition isspace (c : ascii) : bool :=
  let n := code c in
  ((9 <=? n) && (n <=? 13) || (28 <=? n) && (n <=? 32)
   || (n =? 133) || (n =? 160))%nat.

(** [str.lower] on one character: A-Z and the upper-case letters of the
    Latin-1 supplement (0xC0-0xDE but the multiplication sign 0xD7). *)
Definition lower_char (c : ascii) : ascii :=
  let n := code c in
  if ((65 <=? n) && (n <=? 90)
      || (192 <=? n) && (n <=? 222) && negb (n =? 215))%nat
  then ascii_of_nat (n + 32) else c.

Fixpoint lower (s : string) : string :=
  match s with
  | EmptyString => EmptyString
  | String c r => String (lower_char c) (lower r)
  end.

Fixpoint lstrip (s : string) : string :=
  match s with
  | EmptyString => EmptyString
  | String c r => if isspace c then lstrip r else s
  end.

Fixpoint rstrip (s : string) : string :=
  match s with
  | EmptyString => EmptyString
  | String c r =>
      match rstrip r with
      | EmptyString => if isspace c then EmptyString else String c EmptyString
      | r' => String c r'
      end
  end.

Definition strip (s : string) : string := rstrip (lstrip s).

(** [s.endswith(suffix)]: the last [len(suffix)] characters are [suffix]. *)
Definition endswith (s suffix : string) : bool :=
  (String.length suffix <=? String.length s)%nat
  && (substring (String.length s - String.length suffix)
                (String.length suffix) s =? suffix)%string.

(** Truth value of a string: the empty string is false. *)
Definition truthy (s : string) : bool :=
  match s with EmptyString => false | _ => true end.

End Str.

(* ================================================================= *)
(** ** [datetime] values of one time zone *)

(** [BRACKET_DEADLINE] and the value of [datetime.now(...)] carry the same
    [ZoneInfo("America/New_York")]; Python compares two aware datetimes of
    one [tzinfo] by their civil fields, in this order. *)
Record datetime := mk_datetime {
  year : Z; month : Z; day : Z;
  hour : Z; minute : Z; second : Z; microsecond : Z
}.

Definition datetime_fields (d : datetime) : list Z :=
  [year d; month d; day d; hour d; minute d; second d; microsecond d].

Fixpoint lex_compare (a b : list Z) : comparison :=
  match a, b with
  | [], [] => Eq
  | [], _ :: _ => Lt
  | _ :: _, [] => Gt
  | x :: a', y :: b' =>
      match x ?= y with
      | Eq => lex_compare a' b'
      | c => c
      end
  end.

Definition datetime_compare (a b : datetime) : comparison :=
  lex_compare (datetime_fields a) (datetime_fields b).

(** [a >= b] on datetimes. *)
Definition datetime_ge (a b : datetime) : bool :=
  match datetime_compare a b with Lt => false | _ => true end.

Definition datetime_lt (a b : datetime) : bool := negb (datetime_ge a b).

(** main.py:17 *)
Definition BRACKET_DEADLINE : datetime := mk_datetime 2026 3 19 0 0 0 0.

(** main.py:19-21; [now_et] is the reading of the clock. *)
Definition _deadline_passed (now_et : datetime) : bool :=
  datetime_ge now_et BRACKET_DEADLINE.

(* ================================================================= *)
(** ** JSON documents, [json.dumps] and [json.loads] *)

(** A JSON-like value as the handlers see it: [None], a [bool], an [int], a
    [str], a [list] or a [dict] with string keys. *)
#[warnings="-register-all"] Inductive json : Type :=
| JNull
| JBool (b : bool)
| JInt (z : Z)
| JStr (s : string)
| JArr (l : list json)
| JObj (m : list (string * json)).

(** A Python [dict] with string keys, in insertion order. *)
Definition dict : Type := list (string * json).

Definition dict_get (k : string) (d : dict) : option json :=
  option_map snd (find (fun kv => (fst kv =? k)%string) d).

Definition dict_keys (d : dict) : list string := map fst d.

(** [d[k] = v]: an existing key keeps its place. *)
Fixpoint dict_set (k : string) (v : json) (d : dict) : dict :=
  match d with
  | [] => [(k, v)]
  | (k', v') :: t =>
      if (k' =? k)%string then (k', v) :: t else (k', v') :: dict_set k v t
  end.

(** [dict(pairs)] *)
Definition dict_of_pairs (ps : list (string * json)) : dict :=
  fold_left (fun d kv => dict_set (fst kv) (snd kv) d) ps [].

Module Json.

Definition dquote : ascii := ascii_of_nat 34.
Definition backslash : ascii := ascii_of_nat 92.
Definition quoted (body : string) : string :=
  String dquote (body ++ String dquote EmptyString).

(** *** Encoder: [json.dumps] with its default arguments
    ([ensure_ascii=True], separators [", "] and [": "]). *)

Definition hexdigit (n : nat) : ascii :=
  if (n <? 10)%nat then ascii_of_nat (48 + n) else ascii_of_nat (87 + n).

(** One character of [encode_basestring_ascii]. *)
Definition escape_char (c : ascii) : string :=
  let n := Str.code c in
  if (n =? 34)%nat then String backslash (String dquote EmptyString)
  else if (n =? 92)%nat then String backslash (String backslash EmptyString)
  else if (n =? 10)%nat then String backslash "n"
  else if (n =? 13)%nat then String backslash "r"
  else if (n =? 9)%nat then String backslash "t"
  else if (n =? 8)%nat then String backslash "b"
  else if (n =? 12)%nat then String backslash "f"
  else if ((32 <=? n) && (n <=? 126))%nat then String c EmptyString
  else String backslash
         (String "u" (String "0" (String "0"
            (String (hexdigit (n / 16)) (String (hexdigit (n mod 16))
               EmptyString))))).

Fixpoint escape (s : string) : string :=
  match s with
  | EmptyString => EmptyString
  | String c r => escape_char c ++ escape r
  end.

Definition encode_basestring_ascii (s : string) : string :=
  quoted (escape s).

(** [int.__repr__] *)
Definition repr_int (z : Z) : string := NilZero.string_of_int (Z.to_int z).

(** [", ".join(items)] *)
Fixpoint join (items : list string) : string :=
  match items with
  | [] => EmptyString
  | [x] => x
  | x :: t => x ++ ", " ++ join t
  end.

Fixpoint dumps (v : json) : string :=
  match v with
  | JNull => "null"
  | JBool true => "true"
  | JBool false => "false"
  | JInt z => repr_int z
  | JStr s => encode_basestring_ascii s
  | JArr l => "[" ++ join (map dumps l) ++ "]"
  | JObj m =>
      "{" ++ join (map (fun kv => match kv with
                                   | (k, x) =>
                                       encode_basestring_ascii k ++ ": "
                                       ++ dumps x
                                   end) m) ++ "}"
  end.

(** *** Decoder: [json.loads]
    [None] stands for a [JSONDecodeError], and for the texts outside the
    embedding: floating-point numbers and escapes above code point 255. *)

Definition is_ws (c : ascii) : bool :=
  let n := Str.code c in
  ((n =? 32) || (n =? 9) || (n =? 10) || (n =? 13))%nat.

Fixpoint skip_ws (s : string) : string :=
  match s with
  | EmptyString => EmptyString
  | String c r => if is_ws c then skip_ws r else s
  end.

Definition hexval (c : ascii) : option nat :=
  let n := Str.code c in
  if ((48 <=? n) && (n <=? 57))%nat then Some (n - 48)%nat
  else if ((97 <=? n) && (n <=? 102))%nat then Some (n - 87)%nat
  else if ((65 <=? n) && (n <=? 70))%nat then Some (n - 55)%nat
  else None.

Definition hex4 (a b c d : ascii) : option nat :=
  match hexval a, hexval b, hexval c, hexval d with
  | Some x, Some y, Some z, Some w =>
      Some (((x * 16 + y) * 16 + z) * 16 + w)%nat
  | _, _, _, _ => None
  end.

(** The one-character escapes after a backslash. *)
Definition unescape (e : ascii) : option ascii :=
  let n := Str.code e in
  if (n =? 34)%nat then Some dquote
  else if (n =? 92)%nat then Some backslash
  else if (n =? 47)%nat then Some "/"%char
  else if (n =? 98)%nat then Some (ascii_of_nat 8)
  else if (n =? 102)%nat then Some (ascii_of_nat 12)
  else if (n =? 110)%nat then Some (ascii_of_nat 10)
  else if (n =? 114)%nat then Some (ascii_of_nat 13)
  else if (n =? 116)%nat then Some (ascii_of_nat 9)
  else None.

Definition push (c : ascii) (r : option (string * string))
  : option (string * string) :=
  match r with
  | Some (body, rest) => Some (String c body, rest)
  | None => None
  end.

(** [scanstring] (strict): the input starts after the opening quote; the
    result is the decoded body and the text after the closing quote. *)
Fixpoint scanstring (s : string) : option (string * string) :=
  match s with
  | EmptyString => None
  | String c r =>
      if (c =? dquote)%char then Some (EmptyString, r)
      else if (c =? backslash)%char then
        match r with
        | EmptyString => None
        | String e r1 =>
            if (e =? "u")%char then
              match r1 with
              | String h1 (String h2 (String h3 (String h4 r2))) =>
                  match hex4 h1 h2 h3 h4 with
                  | Some n =>
                      if (n <? 256)%nat
                      then push (ascii_of_nat n) (scanstring r2)
                      else None
                  | None => None
                  end
              | _ => None
              end
            else
              match unescape e with
              | Some ch => push ch (scanstring r1)
              | None => None
              end
        end
      else if (Str.code c <? 32)%nat then None
      else push c (scanstring r)
  end.

Definition is_digit (c : ascii) : bool :=
  ((48 <=? Str.code c) && (Str.code c <=? 57))%nat.

Fixpoint span_digits (s : string) : string * string :=
  match s with
  | EmptyString => (EmptyString, EmptyString)
  | String c r =>
      if is_digit c
      then let (ds, rest) := span_digits r in (String c ds, rest)
      else (EmptyString, s)
  end.

(** The integer part of [NUMBER_RE]: a zero, or a nonzero digit and more
    digits. A longer run of digits after a leading zero, and a dot, an e or
    an E after the digits, are either a float or an error at the next
    token. *)
Definition match_uint (s : string) : option (Decimal.uint * string) :=
  let (ds, rest) := span_digits s in
  match ds with
  | EmptyString => None
  | String c more =>
      if ((c =? "0")%char && Str.truthy more) then None
      else
        match rest with
        | String x _ =>
            if ((x =? ".")%char || (x =? "e")%char || (x =? "E")%char)
            then None
            else option_map (fun d => (d, rest)) (NilZero.uint_of_string ds)
        | EmptyString =>
            option_map (fun d => (d, rest)) (NilZero.uint_of_string ds)
        end
  end.

Definition match_number (s : string) : option (Z * string) :=
  match s with
  | String c r =>
      if (c =? "-")%char
      then option_map (fun dr => (Z.of_int (Decimal.Neg (fst dr)), snd dr))
                      (match_uint r)
      else option_map (fun dr => (Z.of_int (Decimal.Pos (fst dr)), snd dr))
                      (match_uint s)
  | EmptyString => None
  end.

(** [s[idx:idx+len(p)] == p], and the text after it. *)
Fixpoint strip_prefix (p s : string) : option string :=
  match p, s with
  | EmptyString, _ => Some s
  | String a p', String b s' =>
      if (a =? b)%char then strip_prefix p' s' else None
  | String _ _, EmptyString => None
  end.

(** [scan_once], [JSONArray] and [JSONObject]; [fuel] bounds the number of
    nested calls, and the length of the text is enough ([loads]). *)
Fixpoint scan_once (fuel : nat) (s : string) : option (json * string) :=
  match fuel with
  | O => None
  | S fuel' =>
      match s with
      | EmptyString => None
      | String c r =>
          if (c =? dquote)%char then
            match scanstring r with
            | Some (body, rest) => Some (JStr body, rest)
            | None => None
            end
          else if (c =? "{")%char then
            match skip_ws r with
            | String c1 r1 =>
                if (c1 =? "}")%char then Some (JObj [], r1)
                else
                  match members fuel' (String c1 r1) with
                  | Some (ps, rest) => Some (JObj (dict_of_pairs ps), rest)
                  | None => None
                  end
            | EmptyString => None
            end
          else if (c =? "[")%char then
            match skip_ws r with
            | String c1 r1 =>
                if (c1 =? "]")%char then Some (JArr [], r1)
                else
                  match elements fuel' (String c1 r1) with
                  | Some (vs, rest) => Some (JArr vs, rest)
                  | None => None
                  end
            | EmptyString => None
            end
          else if (c =? "n")%char then
            option_map (fun rest => (JNull, rest)) (strip_prefix "null" s)
          else if (c =? "t")%char then
            option_map (fun rest => (JBool true, rest))
                       (strip_prefix "true" s)
          else if (c =? "f")%char then
            option_map (fun rest => (JBool false, rest))
                       (strip_prefix "false" s)
          else
            option_map (fun zr => (JInt (fst zr), snd zr)) (match_number s)
      end
  end

(** The loop of [JSONArray]: [s] is at the start of a value. *)
with elements (fuel : nat) (s : string) : option (list json * string) :=
  match fuel with
  | O => None
  | S fuel' =>
      match scan_once fuel' s with
      | Some (v, r) =>
          match skip_ws r with
          | String c r1 =>
              if (c =? "]")%char then Some ([v], r1)
              else if (c =? ",")%char then
                match elements fuel' (skip_ws r1) with
                | Some (vs, rest) => Some (v :: vs, rest)
                | None => None
                end
              else None
          | EmptyString => None
          end
      | None => None
      end
  end

(** The loop of [JSONObject]: [s] is where the quote of a key must be. *)
with members (fuel : nat) (s : string)
  : option (list (string * json) * string) :=
  match fuel with
  | O => None
  | S fuel' =>
      match s with
      | String q r =>
          if (q =? dquote)%char then
            match scanstring r with
            | Some (k, r1) =>
                match skip_ws r1 with
                | String c r2 =>
                    if (c =? ":")%char then
                      match scan_once fuel' (skip_ws r2) with
                      | Some (v, r3) =>
                          match skip_ws r3 with
                          | String c' r4 =>
                              if (c' =? "}")%char then Some ([(k, v)], r4)
                              else if (c' =? ",")%char then
                                match members fuel' (skip_ws r4) with
                                | Some (ps, rest) => Some ((k, v) :: ps, rest)
                                | None => None
                                end
                              else None
                          | EmptyString => None
                          end
                      | None => None
                      end
                    else None
                | EmptyString => None
                end
            | None => None
            end
          else None
      | EmptyString => None
      end
  end.

(** [json.loads(s)]: one value between optional white space. *)
Definition loads (s : string) : option json :=
  match scan_once (S (String.length s)) (skip_ws s) with
  | Some (v, rest) =>
      match skip_ws rest with
      | EmptyString => Some v
      | String _ _ => None
      end
  | None => None
  end.

End Json.

(* ================================================================= *)
(** ** The [entries] table (models.py) *)

Module Entry.
(** One row of [entries]; [created_at] is the server's clock at the insert,
    as an instant. *)
Record t := mk {
  id : Z;
  name : string;
  email : string;
  username : option string;
  bracket : option string;
  score : Z;
  locked : bool;
  created_at : Z
}.

Definition with_bracket (e : t) (txt : string) : t :=
  mk (id e) (name e) (email e) (username e) (Some txt)
     (score e) (locked e) (created_at e).
End Entry.

(** The rows in insertion order. *)
Definition table : Type := list Entry.t.

(** [db.query(Entry).filter(cond).first()] *)
Definition query_first (cond : Entry.t -> bool) (db : table)
  : option Entry.t := find cond db.

(** Modelled from the spec: [db.py] (the engine and [SessionLocal]) is not
    among the sources; the key the database gives a new row is the unique
    identifier assigned on creation, here one above the largest key of the
    table. *)
Definition next_id (db : table) : Z :=
  1 + fold_right (fun e m => Z.max (Entry.id e) m) 0 db.

(** [db.add(new_entry); db.commit(); db.refresh(new_entry)] for an
    [Entry(name=..., email=..., username=...)]: the columns left out take
    their defaults (models.py:15-19), and the insert is refused when the
    email breaks [uq_entries_email] (models.py:21-23). *)
Definition insert_entry (name email : string) (username : option string)
    (server_now : Z) (db : table) : option (Entry.t * table) :=
  if existsb (fun e => (Entry.email e =? email)%string) db then None
  else
    let e := Entry.mk (next_id db) name email username None 0 false server_now
    in Some (e, (db ++ [e])%list).

(** [entry.bracket = txt; db.commit()] for the row loaded under [entry_id]. *)
Fixpoint update_bracket (entry_id : Z) (txt : string) (db : table) : table :=
  match db with
  | [] => []
  | e :: rest =>
      if Entry.id e =? entry_id
      then Entry.with_bracket e txt :: rest
      else e :: update_bracket entry_id txt rest
  end.

(** [ORDER BY]: the rows in the order of [le], equal rows in table order. *)
Fixpoint insert_by (le : Entry.t -> Entry.t -> bool) (x : Entry.t)
    (l : list Entry.t) : list Entry.t :=
  match l with
  | [] => [x]
  | y :: t => if le x y then x :: y :: t else y :: insert_by le x t
  end.

Definition order_by (le : Entry.t -> Entry.t -> bool) (db : table)
  : list Entry.t := fold_right (insert_by le) [] db.

(** [Entry.created_at.asc()] *)
Definition by_created_at (a b : Entry.t) : bool :=
  Entry.created_at a <=? Entry.created_at b.

(** [Entry.score.desc(), Entry.created_at.asc()] *)
Definition by_score_desc_created_at (a b : Entry.t) : bool :=
  (Entry.score b <? Entry.score a)
  || ((Entry.score a =? Entry.score b)
      && (Entry.created_at a <=? Entry.created_at b)).

(* ================================================================= *)
(** ** The request handlers (main.py) *)

(** What a handler does: return a value, raise an [HTTPException], or let
    another exception escape (a server error). *)
Inductive outcome (A : Type) : Type :=
| Ok (a : A)
| HTTPException (status_code : Z) (detail : string)
| Uncaught (exc : string).
Arguments Ok {A} a.
Arguments HTTPException {A} status_code detail.
Arguments Uncaught {A} exc.

Definition is_ok {A} (o : outcome A) : bool :=
  match o with Ok _ => true | _ => false end.

(** The request body of [POST /entries] (main.py:45-48). *)
Module EntryCreate.
Record t := mk {
  name : string;
  email : string;
  username : option string
}.
End EntryCreate.

Definition json_of_username (u : option string) : json :=
  match u with Some s => JStr s | None => JNull end.

(** [json.loads(e.bracket) if e.bracket else {}] *)
Definition load_bracket (b : option string) : option json :=
  match b with
  | Some txt => if Str.truthy txt then Json.loads txt else Some (JObj [])
  | None => Some (JObj [])
  end.

(** main.py:54-85 *)
Definition create_entry (now_et : datetime) (server_now : Z)
    (entry : EntryCreate.t) (db : table) : outcome dict * table :=
  if _deadline_passed now_et then
    (HTTPException 403 "Bracket entry is closed (deadline passed).", db)
  else
    let email_norm := Str.strip (Str.lower (EntryCreate.email entry)) in
    if negb (Str.endswith email_norm "@stevens.edu") then
      (HTTPException 400 "Use your @stevens.edu email", db)
    else
      match query_first (fun e => (Entry.email e =? email_norm)%string) db with
      | Some _ => (HTTPException 409 "Email already used", db)
      | None =>
          let name := Str.strip (EntryCreate.name entry) in
          let username :=
            match EntryCreate.username entry with
            | Some u => if Str.truthy u then Some (Str.strip u) else None
            | None => None
            end in
          match insert_entry name email_norm username server_now db with
          | None => (Uncaught "IntegrityError", db)
          | Some (new_entry, db') =>
              (Ok [("id", JInt (Entry.id new_entry));
                   ("name", JStr (Entry.name new_entry));
                   ("email", JStr (Entry.email new_entry));
                   ("username", json_of_username (Entry.username new_entry))],
               db')
          end
      end.

(** One element of the list of main.py:97-106. *)
Definition list_item (e : Entry.t) (b : json) : dict :=
  [("id", JInt (Entry.id e));
   ("name", JStr (Entry.name e));
   ("username", json_of_username (Entry.username e));
   ("bracket", b);
   ("locked", JBool (Entry.locked e))].

Fixpoint list_items (rows : list Entry.t) : outcome (list dict) :=
  match rows with
  | [] => Ok []
  | e :: rest =>
      match load_bracket (Entry.bracket e) with
      | None => Uncaught "JSONDecodeError"
      | Some b =>
          match list_items rest with
          | Ok items => Ok (list_item e b :: items)
          | failure => failure
          end
      end
  end.

(** main.py:87-106 *)
Definition list_entries (db : table) : outcome (list dict) :=
  list_items (order_by by_created_at db).

(** main.py:108-122 *)
Definition get_entry (entry_id : Z) (db : table) : outcome dict :=
  match query_first (fun e => Entry.id e =? entry_id) db with
  | None => HTTPException 404 "Entry not found"
  | Some entry =>
      match load_bracket (Entry.bracket entry) with
      | None => Uncaught "JSONDecodeError"
      | Some b =>
          Ok [("id", JInt (Entry.id entry));
              ("name", JStr (Entry.name entry));
              ("email", JStr (Entry.email entry));
              ("username", json_of_username (Entry.username entry));
              ("bracket", b);
              ("locked", JBool (Entry.locked entry));
              ("score", JInt (Entry.score entry))]
      end
  end.

(** main.py:126-139 *)
Definition view_bracket (entry_id : Z) (db : table) : outcome dict :=
  match query_first (fun e => Entry.id e =? entry_id) db with
  | None => HTTPException 404 "Entry not found"
  | Some entry =>
      match load_bracket (Entry.bracket entry) with
      | None => Uncaught "JSONDecodeError"
      | Some b =>
          Ok [("id", JInt (Entry.id entry));
              ("name", JStr (Entry.name entry));
              ("email", JStr (Entry.email entry));
              ("username", json_of_username (Entry.username entry));
              ("bracket", b);
              ("locked", JBool (Entry.locked entry))]
      end
  end.

(** main.py:141-158 *)
Definition submit_bracket (now_et : datetime) (entry_id : Z) (bracket : dict)
    (db : table) : outcome dict * table :=
  match query_first (fun e => Entry.id e =? entry_id) db with
  | None => (HTTPException 404 "Entry not found", db)
  | Some entry =>
      if _deadline_passed now_et then
        (HTTPException 403 "Bracket submissions are closed (deadline passed).",
         db)
      else if Entry.locked entry then
        (HTTPException 403 "Bracket is locked", db)
      else
        (Ok [("status", JStr "saved"); ("entry_id", JInt entry_id)],
         update_bracket entry_id (Json.dumps (JObj bracket)) db)
  end.

Definition leaderboard_item (e : Entry.t) : dict :=
  [("id", JInt (Entry.id e));
   ("name", JStr (Entry.name e));
   ("username", json_of_username (Entry.username e));
   ("score", JInt (Entry.score e));
   ("locked", JBool (Entry.locked e))].

(** The rows of main.py:162-166. *)
Definition leaderboard_rows (db : table) : list Entry.t :=
  order_by by_score_desc_created_at db.

(** main.py:160-177 *)
Definition leaderboard (db : table) : list dict :=
  map leaderboard_item (leaderboard_rows db).

(** *** Names for the parts of the handlers the statements refer to *)

Definition closed_detail_entry : string :=
  "Bracket entry is closed (deadline passed).".

Definition closed_detail_submit : string :=
  "Bracket submissions are closed (deadline passed).".

Definition email_norm_of (entry : EntryCreate.t) : string :=
  Str.strip (Str.lower (EntryCreate.email entry)).

Definition username_of (entry : EntryCreate.t) : option string :=
  match EntryCreate.username entry with
  | Some u => if Str.truthy u then Some (Str.strip u) else None
  | None => None
  end.

(** The row a registration writes. *)
Definition new_row (server_now : Z) (entry : EntryCreate.t) (db : table)
  : Entry.t :=
  Entry.mk (next_id db) (Str.strip (EntryCreate.name entry))
           (email_norm_of entry) (username_of entry) None 0 false server_now.

Definition created_response (e : Entry.t) : dict :=
  [("id", JInt (Entry.id e)); ("name", JStr (Entry.name e));
   ("email", JStr (Entry.email e));
   ("username", json_of_username (Entry.username e))].

(** Two rows that differ in nothing but the bracket. *)
Definition same_but_bracket (e e' : Entry.t) : Prop :=
  Entry.id e' = Entry.id e /\ Entry.name e' = Entry.name e
  /\ Entry.email e' = Entry.email e /\ Entry.username e' = Entry.username e
  /\ Entry.score e' = Entry.score e /\ Entry.locked e' = Entry.locked e
  /\ Entry.created_at e' = Entry.created_at e.

(** Sample data for the examples. *)
Definition before_deadline : datetime := mk_datetime 2026 3 18 23 59 59 999999.
Definition after_deadline : datetime := mk_datetime 2026 3 19 0 0 0 1.
Definition ann : EntryCreate.t :=
  EntryCreate.mk " Ann " "A@Stevens.EDU " (Some "ann1").
Definition ann_again : EntryCreate.t :=
  EntryCreate.mk "Ann B" "a@stevens.edu" None.
Definition bob_elsewhere : EntryCreate.t :=
  EntryCreate.mk "Bob" "bob@example.com" (Some "bob").
Definition row_open : Entry.t :=
  Entry.mk 1 "Ann" "a@stevens.edu" (Some "ann1") None 0 false 100.
Definition row_locked : Entry.t :=
  Entry.mk 2 "Cy" "cy@stevens.edu" None None 7 true 200.
Definition picks : dict := [("champion", JStr "Duke"); ("round1", JArr [JInt 1; JInt 8])].

(** *** The life of the table *)

(** One write request, accepted or refused. *)
Inductive step : table -> table -> Prop :=
| step_create_entry now server_now entry db :
    step db (snd (create_entry now server_now entry db))
| step_submit_bracket now entry_id bracket db :
    step db (snd (submit_bracket now entry_id bracket db)).

(** Any number of write requests, one after the other. *)
Inductive reachable (db : table) : table -> Prop :=
| reachable_refl : reachable db db
| reachable_step db1 db2 :
    reachable db db1 -> step db1 db2 -> reachable db db2.

(** *** The order of the leaderboard *)

(** [a] may stand before [b]: a higher score, or the same score and not a
    later registration. *)
Definition ranks_before (a b : Entry.t) : Prop :=
  Entry.score b < Entry.score a
  \/ (Entry.score a = Entry.score b
      /\ Entry.created_at a <= Entry.created_at b).

Definition entry_A : Entry.t :=
  Entry.mk 1 "A" "a@stevens.edu" None None 10 false 100.
Definition entry_B : Entry.t :=
  Entry.mk 2 "B" "b@stevens.edu" None None 20 false 200.
Definition entry_C : Entry.t :=
  Entry.mk 3 "C" "c@stevens.edu" None None 10 false 300.

(** *** Well-formed documents *)

(** The keys of a [dict] are distinct. *)
Fixpoint unique_keys (ks : list string) : bool :=
  match ks with
  | [] => true
  | k :: t => negb (existsb (String.eqb k) t) && unique_keys t
  end.

(** A value all of whose dicts have distinct keys. *)
Fixpoint wf_json (v : json) : bool :=
  match v with
  | JArr l => forallb wf_json l
  | JObj m =>
      unique_keys (map fst m) && forallb (fun kv => wf_json (snd kv)) m
  | _ => true
  end.

(** The calls of [scan_once], [elements] and [members] that read a value
    back. *)
Fixpoint weight (v : json) : nat :=
  match v with
  | JArr l => S (fold_right (fun x n => S (weight x + n)) O l)
  | JObj m => S (fold_right (fun kv n => S (weight (snd kv) + n)) O m)
  | _ => 1%nat
  end.

(** What may follow a value in a text of [dumps]: nothing, or the comma or
    the closing bracket of the enclosing list or dict. *)
Definition ends_value (rest : string) : Prop :=
  match rest with
  | EmptyString => True
  | String c _ => c = ","%char \/ c = "]"%char \/ c = "}"%char
  end.

(** The first character of a value in a text of [dumps]. *)
Definition starts_value (s : string) : Prop :=
  match s with
  | EmptyString => False
  | String c _ =>
      Json.is_ws c = false /\ (c =? "]")%char = false
      /\ (c =? "}")%char = false
  end.

(** One member of a dict in the text of [dumps]. *)
Definition dumps_member (kv : string * json) : string :=
  Json.encode_basestring_ascii (fst kv) ++ ": " ++ Json.dumps (snd kv).

(** [scan_once] reads [v] back from the text of [dumps], given the calls it
    needs, whatever text of the enclosing value follows. *)
Definition reads_back (v : json) : Prop :=
  forall fuel rest,
    (weight v <= fuel)%nat -> ends_value rest ->
    Json.scan_once fuel (Json.dumps v ++ rest) = Some (v, rest).

(** An entry that has a bracket on file. *)
Definition row_submitted : Entry.t :=
  Entry.mk 5 "Dee" "dee@stevens.edu" None
    (Some (Json.dumps (JObj [("old", JInt 1); ("champion", JStr "UNC")])))
    0 false 500.

(** *** The constraints of the table (models.py:8 and models.py:21-23) *)

Definition primary_key (db : table) : Prop := NoDup (map Entry.id db).

Definition uq_entries_email (db : table) : Prop := NoDup (map Entry.email db).

(** An email as [create_entry] stores it. *)
Definition normalized (s : string) : Prop := Str.strip (Str.lower s) = s.

(** *** Further names for the statements *)

Definition later_reading : datetime := mk_datetime 2026 11 1 1 30 0 0.

(** A string of white space only. *)
Fixpoint all_space (s : string) : bool :=
  match s with
  | EmptyString => true
  | String c r => Str.isspace c && all_space r
  end.

(** The bracket column as the requests leave it: nothing, or the text of a
    document whose dicts have distinct keys. *)
Definition bracket_on_file (e : Entry.t) : Prop :=
  Entry.bracket e = None
  \/ exists d : dict, wf_json (JObj d) = true
                      /\ Entry.bracket e = Some (Json.dumps (JObj d)).

(** A row as a registration writes it and submissions leave it. *)
Definition api_row (e : Entry.t) : Prop :=
  Entry.score e = 0 /\ Entry.locked e = false
  /\ normalized (Entry.email e)
  /\ Str.endswith (Entry.email e) "@stevens.edu" = true.

Definition cy : EntryCreate.t :=
  EntryCreate.mk "Cy" "cy@Stevens.edu" (Some "  ").



(* ================================================================= *)
(** ** The deadline *)


Lemma lex_compare_refl (a : list Z) : lex_compare a a = Eq.
Proof.
  induction a as [|x a IH]; simpl; [reflexivity|].
  now rewrite Z.compare_refl.
Qed.

Lemma datetime_lt_ge (a b : datetime) :
  datetime_lt a b = true <-> datetime_ge a b = false.
Proof.
  unfold datetime_lt. destruct (datetime_ge a b); simpl; split; congruence.
Qed.

Lemma datetime_ge_refl (a : datetime) : datetime_ge a a = true.
Proof.
  unfold datetime_ge, datetime_compare. now rewrite lex_compare_refl.
Qed.

Lemma datetime_compare_eq (a b : datetime) :
  datetime_compare a b = Eq -> a = b.
Proof.
  destruct a, b; unfold datetime_compare, datetime_fields; simpl.
  repeat match goal with
         | |- context [?x ?= ?y] =>
             destruct (Z.compare_spec x y); try discriminate; subst
         end.
  reflexivity.
Qed.

(** The deadline in civil terms: the day 2026-03-19 has come, whatever the
    time of day. *)
Lemma deadline_passed_civil (now : datetime) :
  0 <= hour now -> 0 <= minute now -> 0 <= second now ->
  0 <= microsecond now ->
  (_deadline_passed now = true <->
   2026 < year now \/
   (year now = 2026 /\ (3 < month now \/ (month now = 3 /\ 19 <= day now)))).
Proof.
  intros Hh Hm Hs Hu.
  unfold _deadline_passed, datetime_ge, datetime_compare, datetime_fields,
    BRACKET_DEADLINE; simpl.
  repeat match goal with
         | |- context [?x ?= ?y] => destruct (Z.compare_spec x y)
         end; split; intros ?; try discriminate; try reflexivity; try lia.
Qed.

(** Registration is refused as soon as the deadline has come. *)
Lemma create_entry_closed now server_now entry db :
  datetime_ge now BRACKET_DEADLINE = true ->
  create_entry now server_now entry db
  = (HTTPException 403 closed_detail_entry, db).
Proof.
  intros H. unfold create_entry, _deadline_passed. now rewrite H.
Qed.

(** Submission to an entry that exists is refused as soon as the deadline has
    come, locked or not. *)
Lemma submit_bracket_closed now entry_id bracket db e :
  datetime_ge now BRACKET_DEADLINE = true ->
  query_first (fun r => Entry.id r =? entry_id) db = Some e ->
  submit_bracket now entry_id bracket db
  = (HTTPException 403 closed_detail_submit, db).
Proof.
  intros H He. unfold submit_bracket, _deadline_passed. now rewrite He, H.
Qed.

Lemma submit_bracket_missing now entry_id bracket db :
  query_first (fun r => Entry.id r =? entry_id) db = None ->
  submit_bracket now entry_id bracket db
  = (HTTPException 404 "Entry not found", db).
Proof.
  intros He. unfold submit_bracket. now rewrite He.
Qed.

Lemma submit_bracket_never_ok_when_closed now entry_id bracket db :
  datetime_ge now BRACKET_DEADLINE = true ->
  is_ok (fst (submit_bracket now entry_id bracket db)) = false
  /\ snd (submit_bracket now entry_id bracket db) = db.
Proof.
  intros H.
  destruct (query_first (fun r => Entry.id r =? entry_id) db) as [e|] eqn:He.
  - rewrite (submit_bracket_closed _ _ _ _ _ H He). now split.
  - rewrite (submit_bracket_missing _ _ _ _ He). now split.
Qed.

(** *** What a successful request does *)





Lemma find_none_iff {A} (p : A -> bool) (l : list A) :
  find p l = None <-> forall x, In x l -> p x = false.
Proof.
  split.
  - intros H x Hx. exact (find_none p l H x Hx).
  - induction l as [|y l IH]; simpl; intros H; [reflexivity|].
    rewrite (H y (or_introl eq_refl)). apply IH.
    intros x Hx. apply H. now right.
Qed.

Lemma existsb_false_iff {A} (p : A -> bool) (l : list A) :
  existsb p l = false <-> forall x, In x l -> p x = false.
Proof.
  induction l as [|y l IH]; simpl.
  - split; [intros _ x []|reflexivity].
  - rewrite orb_false_iff, IH. split.
    + intros [Hy Hl] x [<-|Hx]; auto.
    + intros H. split; [apply H; now left|intros x Hx; apply H; now right].
Qed.

Lemma no_row_with_email (em : string) (db : table) :
  (forall e, In e db -> Entry.email e <> em) <->
  query_first (fun e => (Entry.email e =? em)%string) db = None.
Proof.
  unfold query_first. rewrite find_none_iff. split; intros H e He.
  - apply String.eqb_neq. now apply H.
  - apply String.eqb_neq. now apply H.
Qed.

(** The code path of a registration that passes every check. *)
Lemma create_entry_ok now server_now entry db :
  datetime_lt now BRACKET_DEADLINE = true ->
  Str.endswith (email_norm_of entry) "@stevens.edu" = true ->
  (forall e, In e db -> Entry.email e <> email_norm_of entry) ->
  create_entry now server_now entry db
  = (Ok (created_response (new_row server_now entry db)),
     (db ++ [new_row server_now entry db])%list).
Proof.
  intros Hlt Hdom Hfresh.
  apply datetime_lt_ge in Hlt.
  unfold create_entry, _deadline_passed. rewrite Hlt.
  fold (email_norm_of entry). rewrite Hdom. simpl negb. cbv iota.
  pose proof (proj1 (no_row_with_email _ _) Hfresh) as Hq. rewrite Hq.
  unfold insert_entry.
  assert (Hex : existsb (fun e => (Entry.email e =? email_norm_of entry)%string)
                        db = false).
  { apply existsb_false_iff. now apply find_none_iff. }
  rewrite Hex. reflexivity.
Qed.

(** The code path of a submission that passes every check. *)
Lemma submit_bracket_ok now entry_id bracket db e :
  datetime_lt now BRACKET_DEADLINE = true ->
  query_first (fun r => Entry.id r =? entry_id) db = Some e ->
  Entry.locked e = false ->
  submit_bracket now entry_id bracket db
  = (Ok [("status", JStr "saved"); ("entry_id", JInt entry_id)],
     update_bracket entry_id (Json.dumps (JObj bracket)) db).
Proof.
  intros Hlt He Hl. apply datetime_lt_ge in Hlt.
  unfold submit_bracket, _deadline_passed. now rewrite He, Hlt, Hl.
Qed.

(** Every path of [create_entry]; the insert never breaks the constraint,
    because the handler has looked the email up first. *)
Lemma create_entry_unfold now server_now entry db :
  create_entry now server_now entry db =
  if datetime_ge now BRACKET_DEADLINE then
    (HTTPException 403 closed_detail_entry, db)
  else if Str.endswith (email_norm_of entry) "@stevens.edu" then
    match query_first (fun e => (Entry.email e =? email_norm_of entry)%string)
                      db with
    | Some _ => (HTTPException 409 "Email already used", db)
    | None => (Ok (created_response (new_row server_now entry db)),
               (db ++ [new_row server_now entry db])%list)
    end
  else (HTTPException 400 "Use your @stevens.edu email", db).
Proof.
  destruct (datetime_ge now BRACKET_DEADLINE) eqn:Hge.
  - now apply create_entry_closed.
  - destruct (Str.endswith (email_norm_of entry) "@stevens.edu") eqn:Hdom.
    + destruct (query_first _ db) eqn:Hq.
      * unfold create_entry, _deadline_passed. rewrite Hge.
        fold (email_norm_of entry). now rewrite Hdom, Hq.
      * apply create_entry_ok; [now apply datetime_lt_ge|assumption|].
        now apply no_row_with_email.
    + unfold create_entry, _deadline_passed. rewrite Hge.
      fold (email_norm_of entry). now rewrite Hdom.
Qed.

Lemma create_entry_ok_inv now server_now entry db resp db' :
  create_entry now server_now entry db = (Ok resp, db') ->
  datetime_lt now BRACKET_DEADLINE = true
  /\ Str.endswith (email_norm_of entry) "@stevens.edu" = true
  /\ (forall e, In e db -> Entry.email e <> email_norm_of entry)
  /\ resp = created_response (new_row server_now entry db)
  /\ db' = (db ++ [new_row server_now entry db])%list.
Proof.
  rewrite create_entry_unfold.
  destruct (datetime_ge now BRACKET_DEADLINE) eqn:Hge; [discriminate|].
  destruct (Str.endswith _ _) eqn:Hdom; [|discriminate].
  destruct (query_first _ db) eqn:Hq; [discriminate|].
  intros [= <- <-]. repeat split; auto.
  - now apply datetime_lt_ge.
  - now apply no_row_with_email.
Qed.

Lemma submit_bracket_ok_inv now entry_id bracket db resp db' :
  submit_bracket now entry_id bracket db = (Ok resp, db') ->
  datetime_lt now BRACKET_DEADLINE = true
  /\ (exists e, query_first (fun r => Entry.id r =? entry_id) db = Some e
                /\ Entry.locked e = false)
  /\ db' = update_bracket entry_id (Json.dumps (JObj bracket)) db.
Proof.
  unfold submit_bracket, _deadline_passed.
  destruct (query_first _ db) as [e|] eqn:He; [|discriminate].
  destruct (datetime_ge now BRACKET_DEADLINE) eqn:Hge; [discriminate|].
  destruct (Entry.locked e) eqn:Hl; [discriminate|].
  intros [= <- <-]. repeat split; [now apply datetime_lt_ge|].
  exists e. now split.
Qed.

Lemma update_bracket_frame entry_id txt db :
  Forall2 same_but_bracket db (update_bracket entry_id txt db).
Proof.
  assert (Hrefl : forall l, Forall2 same_but_bracket l l).
  { induction l; constructor; auto. now repeat split. }
  induction db as [|e db IH]; simpl; [constructor|].
  destruct (Entry.id e =? entry_id).
  - constructor; [now repeat split|apply Hrefl].
  - constructor; [now repeat split|apply IH].
Qed.

(** Rows under another key are left as they are. *)
Lemma update_bracket_others entry_id txt db e :
  In e db -> Entry.id e <> entry_id -> In e (update_bracket entry_id txt db).
Proof.
  induction db as [|r db IH]; simpl; [tauto|].
  intros [->|Hin] Hne.
  - apply Z.eqb_neq in Hne. rewrite Hne. now left.
  - destruct (Entry.id r =? entry_id); right; auto.
Qed.

(* ================================================================= *)
(** ** Deadline, lock and domain: the refusals *)

(** C1, as the code has it. A registration made at or after the deadline is
    refused with the 403 of a closed contest, whatever else holds, and so is
    a submission made then to an entry that exists, locked or not. A
    submission to an unknown id is answered by the 404 of the lookup, which
    comes before the test of the deadline; no submission made at or after the
    deadline succeeds or writes. Before the deadline a registration whose
    normalized email has the domain and is not taken succeeds, and so does a
    submission to an entry that exists and is not locked. *)
Theorem deadline_gates_requests :
  (forall now server_now entry db,
      datetime_ge now BRACKET_DEADLINE = true ->
      create_entry now server_now entry db
      = (HTTPException 403 closed_detail_entry, db))
  /\ (forall now entry_id bracket db e,
      datetime_ge now BRACKET_DEADLINE = true ->
      query_first (fun r => Entry.id r =? entry_id) db = Some e ->
      submit_bracket now entry_id bracket db
      = (HTTPException 403 closed_detail_submit, db))
  /\ (forall now entry_id bracket db,
      (forall e, In e db -> Entry.id e <> entry_id) ->
      submit_bracket now entry_id bracket db
      = (HTTPException 404 "Entry not found", db))
  /\ (forall now entry_id bracket db,
      datetime_ge now BRACKET_DEADLINE = true ->
      is_ok (fst (submit_bracket now entry_id bracket db)) = false
      /\ snd (submit_bracket now entry_id bracket db) = db)
  /\ (forall now server_now entry db,
      datetime_lt now BRACKET_DEADLINE = true ->
      Str.endswith (Str.strip (Str.lower (EntryCreate.email entry)))
                   "@stevens.edu" = true ->
      (forall e, In e db ->
                 Entry.email e
                 <> Str.strip (Str.lower (EntryCreate.email entry))) ->
      is_ok (fst (create_entry now server_now entry db)) = true
      /\ create_entry now server_now entry db
         = (Ok (created_response (new_row server_now entry db)),
            (db ++ [new_row server_now entry db])%list))
  /\ (forall now entry_id bracket db e,
      datetime_lt now BRACKET_DEADLINE = true ->
      query_first (fun r => Entry.id r =? entry_id) db = Some e ->
      Entry.locked e = false ->
      is_ok (fst (submit_bracket now entry_id bracket db)) = true
      /\ submit_bracket now entry_id bracket db
         = (Ok [("status", JStr "saved"); ("entry_id", JInt entry_id)],
            update_bracket entry_id (Json.dumps (JObj bracket)) db)).
Proof.
  split; [exact create_entry_closed|].
  split; [exact submit_bracket_closed|].
  split.
  { intros now entry_id bracket db Hnone. apply submit_bracket_missing.
    apply find_none_iff. intros e He. apply Z.eqb_neq. now apply Hnone. }
  split; [exact submit_bracket_never_ok_when_closed|].
  split.
  - intros now server_now entry db Hlt Hdom Hfresh.
    rewrite (create_entry_ok now server_now entry db Hlt Hdom Hfresh).
    now split.
  - intros now entry_id bracket db e Hlt He Hl.
    rewrite (submit_bracket_ok now entry_id bracket db e Hlt He Hl).
    now split.
Qed.

Lemma deadline_gates_requests_witness :
  create_entry after_deadline 300 ann []
  = (HTTPException 403 closed_detail_entry, [])
  /\ submit_bracket after_deadline 1 picks [row_open]
     = (HTTPException 403 closed_detail_submit, [row_open])
  /\ submit_bracket before_deadline 9 picks [row_open]
     = (HTTPException 404 "Entry not found", [row_open])
  /\ is_ok (fst (submit_bracket after_deadline 9 picks [row_open])) = false
  /\ is_ok (fst (create_entry before_deadline 300 ann [row_locked])) = true
  /\ is_ok (fst (submit_bracket before_deadline 1 picks [row_open])) = true.
Proof.
  destruct deadline_gates_requests as (H1 & H2 & H3 & H4 & H5 & H6).
  split; [apply H1; reflexivity|].
  split; [apply (H2 _ _ _ _ row_open); reflexivity|].
  split; [apply H3; intros e [<-|[]]; discriminate|].
  split; [apply H4; reflexivity|].
  split.
  - apply H5; [reflexivity|reflexivity|].
    intros e [<-|[]]. vm_compute. discriminate.
  - apply (H6 _ _ _ _ row_open); reflexivity.
Defined.

(** After the deadline a submission to an id the table does not have is
    answered 404, not with the 403 of the closed contest. *)
Lemma unknown_id_after_deadline_not_found :
  datetime_ge after_deadline BRACKET_DEADLINE = true
  /\ submit_bracket after_deadline 9 picks [row_open]
     = (HTTPException 404 "Entry not found", [row_open])
  /\ fst (submit_bracket after_deadline 9 picks [row_open])
     <> HTTPException 403 closed_detail_submit.
Proof. repeat split. discriminate. Qed.

(** C10. At the deadline itself the contest is already closed: the test is
    [now >= BRACKET_DEADLINE], so a registration and a submission made at
    that instant are refused. *)
Theorem deadline_instant_is_closed now :
  datetime_compare now BRACKET_DEADLINE = Eq ->
  _deadline_passed now = true
  /\ (forall server_now entry db,
         create_entry now server_now entry db
         = (HTTPException 403 closed_detail_entry, db))
  /\ (forall entry_id bracket db,
         is_ok (fst (submit_bracket now entry_id bracket db)) = false)
  /\ (forall entry_id bracket db e,
         query_first (fun r => Entry.id r =? entry_id) db = Some e ->
         submit_bracket now entry_id bracket db
         = (HTTPException 403 closed_detail_submit, db)).
Proof.
  intros Heq.
  assert (Hge : datetime_ge now BRACKET_DEADLINE = true).
  { unfold datetime_ge. now rewrite Heq. }
  split; [exact Hge|].
  split; [intros; now apply create_entry_closed|].
  split; [intros; now apply submit_bracket_never_ok_when_closed|].
  intros. now apply submit_bracket_closed with (e := e).
Qed.

Lemma deadline_instant_is_closed_witness :
  _deadline_passed BRACKET_DEADLINE = true
  /\ create_entry BRACKET_DEADLINE 300 ann []
     = (HTTPException 403 closed_detail_entry, [])
  /\ submit_bracket BRACKET_DEADLINE 1 picks [row_open]
     = (HTTPException 403 closed_detail_submit, [row_open]).
Proof.
  destruct (deadline_instant_is_closed BRACKET_DEADLINE eq_refl)
    as (H1 & H2 & _ & H4).
  split; [exact H1|]. split; [apply H2|].
  apply (H4 _ _ _ row_open). reflexivity.
Defined.

(** C3. A submission to an entry whose [locked] flag is set is refused with
    a 403 before and after the deadline alike, and the table, the stored
    bracket with it, stays as it was. *)
Theorem locked_entry_rejects_submission now entry_id bracket db e :
  query_first (fun r => Entry.id r =? entry_id) db = Some e ->
  Entry.locked e = true ->
  submit_bracket now entry_id bracket db
  = (HTTPException 403 (if datetime_ge now BRACKET_DEADLINE
                        then closed_detail_submit else "Bracket is locked"),
     db).
Proof.
  intros He Hl. unfold submit_bracket, _deadline_passed. rewrite He.
  destruct (datetime_ge now BRACKET_DEADLINE); [reflexivity|].
  now rewrite Hl.
Qed.

Lemma locked_entry_rejects_submission_witness :
  submit_bracket before_deadline 2 picks [row_open; row_locked]
  = (HTTPException 403 "Bracket is locked", [row_open; row_locked])
  /\ submit_bracket after_deadline 2 picks [row_open; row_locked]
     = (HTTPException 403 closed_detail_submit, [row_open; row_locked]).
Proof.
  split.
  - exact (locked_entry_rejects_submission before_deadline 2 picks
             [row_open; row_locked] row_locked eq_refl eq_refl).
  - exact (locked_entry_rejects_submission after_deadline 2 picks
             [row_open; row_locked] row_locked eq_refl eq_refl).
Defined.

(** C6. A registration whose normalized email does not end with
    [@stevens.edu] is refused, whatever its name and username are, and no
    row is written: with the 400 of the domain check before the deadline,
    with the 403 of the closed contest from the deadline on. *)
Theorem foreign_domain_rejected now server_now entry db :
  Str.endswith (Str.strip (Str.lower (EntryCreate.email entry)))
               "@stevens.edu" = false ->
  create_entry now server_now entry db
  = (if datetime_ge now BRACKET_DEADLINE
     then HTTPException 403 closed_detail_entry
     else HTTPException 400 "Use your @stevens.edu email",
     db).
Proof.
  intros Hdom. rewrite create_entry_unfold. unfold email_norm_of.
  rewrite Hdom. now destruct (datetime_ge now BRACKET_DEADLINE).
Qed.

Lemma foreign_domain_rejected_witness :
  create_entry before_deadline 300 bob_elsewhere [row_open]
  = (HTTPException 400 "Use your @stevens.edu email", [row_open]).
Proof.
  exact (foreign_domain_rejected before_deadline 300 bob_elsewhere [row_open]
           eq_refl).
Defined.

(* ================================================================= *)
(** ** What the writes touch *)

Lemma update_bracket_split entry_id txt db e :
  query_first (fun r => Entry.id r =? entry_id) db = Some e ->
  exists before after,
    db = (before ++ e :: after)%list
    /\ (forall r, In r before -> Entry.id r <> entry_id)
    /\ Entry.id e = entry_id
    /\ update_bracket entry_id txt db
       = (before ++ Entry.with_bracket e txt :: after)%list.
Proof.
  unfold query_first. induction db as [|r db IH]; simpl; [discriminate|].
  destruct (Entry.id r =? entry_id) eqn:Hr.
  - intros [= ->]. exists [], db. repeat split; [intros r []|].
    now apply Z.eqb_eq.
  - intros H. destruct (IH H) as (before & after & -> & Hb & He & ->).
    exists (r :: before), after. repeat split; auto.
    intros r' [<-|Hin]; [now apply Z.eqb_neq|now apply Hb].
Qed.

(** C8. A registration writes one row, with [score = 0] and
    [locked = false], after the rows that were there, which it leaves as
    they are. A successful submission changes one thing: the bracket of the
    entry under the id, which becomes the text of the document; that row
    keeps every other column and its place, and every other row is as it
    was, bracket included. *)
Theorem writes_frame :
  (forall now server_now entry db resp db',
      create_entry now server_now entry db = (Ok resp, db') ->
      exists e, db' = (db ++ [e])%list
                /\ Entry.score e = 0 /\ Entry.locked e = false)
  /\ (forall now entry_id bracket db resp db',
      submit_bracket now entry_id bracket db = (Ok resp, db') ->
      Forall2 same_but_bracket db db'
      /\ exists before e e' after,
          db = (before ++ e :: after)%list
          /\ db' = (before ++ e' :: after)%list
          /\ (forall r, In r before -> Entry.id r <> entry_id)
          /\ Entry.id e = entry_id
          /\ same_but_bracket e e'
          /\ Entry.bracket e' = Some (Json.dumps (JObj bracket))).
Proof.
  split.
  - intros * H. apply create_entry_ok_inv in H.
    destruct H as (_ & _ & _ & _ & ->).
    exists (new_row server_now entry db). now repeat split.
  - intros * H. apply submit_bracket_ok_inv in H.
    destruct H as (_ & (e & He & _) & ->).
    split; [apply update_bracket_frame|].
    destruct (update_bracket_split entry_id (Json.dumps (JObj bracket)) db e He)
      as (before & after & Hdb & Hb & Hid & Hup).
    exists before, e, (Entry.with_bracket e (Json.dumps (JObj bracket))), after.
    repeat split; auto.
Qed.

Lemma writes_frame_witness :
  (exists e, (snd (create_entry before_deadline 300 ann [row_locked]))
             = ([row_locked] ++ [e])%list
             /\ Entry.score e = 0 /\ Entry.locked e = false)
  /\ Forall2 same_but_bracket [row_locked; row_open; row_submitted]
       (snd (submit_bracket before_deadline 1 picks
               [row_locked; row_open; row_submitted]))
  /\ exists before e e' after,
       [row_locked; row_open; row_submitted] = (before ++ e :: after)%list
       /\ snd (submit_bracket before_deadline 1 picks
                 [row_locked; row_open; row_submitted])
          = (before ++ e' :: after)%list
       /\ (forall r, In r before -> Entry.id r <> 1)
       /\ Entry.id e = 1
       /\ same_but_bracket e e'
       /\ Entry.bracket e' = Some (Json.dumps (JObj picks)).
Proof.
  destruct writes_frame as (H1 & H2). split.
  - assert (E : create_entry before_deadline 300 ann [row_locked]
                = (Ok (created_response (new_row 300 ann [row_locked])),
                   ([row_locked] ++ [new_row 300 ann [row_locked]])%list))
      by reflexivity.
    rewrite E. exact (H1 _ _ _ _ _ _ E).
  - assert (E : submit_bracket before_deadline 1 picks
                  [row_locked; row_open; row_submitted]
                = (Ok [("status", JStr "saved"); ("entry_id", JInt 1)],
                   update_bracket 1 (Json.dumps (JObj picks))
                     [row_locked; row_open; row_submitted]))
      by reflexivity.
    rewrite E. exact (H2 _ _ _ _ _ _ E).
Defined.

(** C9. A registration or a submission that fails, for whatever reason,
    leaves the table exactly as it found it. *)
Theorem failed_request_leaves_store :
  (forall now server_now entry db,
      is_ok (fst (create_entry now server_now entry db)) = false ->
      snd (create_entry now server_now entry db) = db)
  /\ (forall now entry_id bracket db,
      is_ok (fst (submit_bracket now entry_id bracket db)) = false ->
      snd (submit_bracket now entry_id bracket db) = db).
Proof.
  split.
  - intros *. rewrite create_entry_unfold.
    destruct (datetime_ge now BRACKET_DEADLINE); [reflexivity|].
    destruct (Str.endswith _ _); [|reflexivity].
    destruct (query_first _ db); [reflexivity|discriminate].
  - intros *. unfold submit_bracket.
    destruct (query_first _ db) as [e|]; [|reflexivity].
    destruct (_deadline_passed now); [reflexivity|].
    destruct (Entry.locked e); [reflexivity|discriminate].
Qed.

Lemma failed_request_leaves_store_witness :
  snd (create_entry before_deadline 300 ann_again [row_open]) = [row_open]
  /\ snd (submit_bracket before_deadline 2 picks [row_open; row_locked])
     = [row_open; row_locked].
Proof.
  destruct failed_request_leaves_store as (H1 & H2).
  split; [apply H1|apply H2]; reflexivity.
Defined.

(* ================================================================= *)
(** ** Normalized emails *)

Lemma lower_char_idem c : Str.lower_char (Str.lower_char c) = Str.lower_char c.
Proof. destruct c as [[] [] [] [] [] [] [] []]; reflexivity. Qed.

Lemma isspace_lower_char c : Str.isspace (Str.lower_char c) = Str.isspace c.
Proof. destruct c as [[] [] [] [] [] [] [] []]; reflexivity. Qed.

Lemma lower_idem s : Str.lower (Str.lower s) = Str.lower s.
Proof.
  induction s as [|c s IH]; simpl; [reflexivity|].
  now rewrite lower_char_idem, IH.
Qed.

Lemma lower_lstrip s : Str.lower (Str.lstrip s) = Str.lstrip (Str.lower s).
Proof.
  induction s as [|c s IH]; simpl; [reflexivity|].
  rewrite isspace_lower_char. destruct (Str.isspace c); [exact IH|reflexivity].
Qed.

Lemma rstrip_cons c s :
  Str.rstrip (String c s)
  = match Str.rstrip s with
    | EmptyString => if Str.isspace c then EmptyString else String c EmptyString
    | String a r => String c (String a r)
    end.
Proof. reflexivity. Qed.

Lemma lower_rstrip s : Str.lower (Str.rstrip s) = Str.rstrip (Str.lower s).
Proof.
  induction s as [|c s IH]; [reflexivity|].
  cbn [Str.lower]. rewrite !rstrip_cons, <- IH, isspace_lower_char.
  destruct (Str.rstrip s); simpl; [|reflexivity].
  now destruct (Str.isspace c).
Qed.

Lemma rstrip_idem s : Str.rstrip (Str.rstrip s) = Str.rstrip s.
Proof.
  induction s as [|c s IH]; [reflexivity|].
  rewrite rstrip_cons. destruct (Str.rstrip s) as [|a r] eqn:E.
  - destruct (Str.isspace c) eqn:Hc; [reflexivity|].
    rewrite rstrip_cons. simpl. now rewrite Hc.
  - rewrite rstrip_cons, IH. reflexivity.
Qed.

(** What [lstrip] leaves is empty or starts with a character that is not
    white space, and [rstrip] keeps such a start. *)
Lemma lstrip_rstrip_lstrip s :
  Str.lstrip (Str.rstrip (Str.lstrip s)) = Str.rstrip (Str.lstrip s).
Proof.
  induction s as [|c s IH]; simpl; [reflexivity|].
  destruct (Str.isspace c) eqn:Hc; [exact IH|].
  rewrite rstrip_cons.
  destruct (Str.rstrip s); rewrite ?Hc; cbn [Str.lstrip]; now rewrite Hc.
Qed.

Lemma strip_idem s : Str.strip (Str.strip s) = Str.strip s.
Proof.
  unfold Str.strip. now rewrite lstrip_rstrip_lstrip, rstrip_idem.
Qed.

(** [strip(lower(...))] gives a string it leaves alone. *)
Lemma normalize_normalized s : normalized (Str.strip (Str.lower s)).
Proof.
  unfold normalized, Str.strip.
  rewrite lower_rstrip, lower_lstrip, lower_idem.
  fold (Str.strip (Str.lower s)). apply strip_idem.
Qed.

(* ================================================================= *)
(** ** One email, one entry *)

Lemma update_bracket_emails entry_id txt db :
  map Entry.email (update_bracket entry_id txt db) = map Entry.email db.
Proof.
  induction db as [|e db IH]; simpl; [reflexivity|].
  destruct (Entry.id e =? entry_id); simpl; [reflexivity|now rewrite IH].
Qed.

Lemma create_entry_table now server_now entry db :
  snd (create_entry now server_now entry db) = db
  \/ (snd (create_entry now server_now entry db)
      = (db ++ [new_row server_now entry db])%list
      /\ forall e, In e db -> Entry.email e <> email_norm_of entry).
Proof.
  rewrite create_entry_unfold.
  destruct (datetime_ge now BRACKET_DEADLINE); [now left|].
  destruct (Str.endswith _ _); [|now left].
  destruct (query_first _ db) eqn:Hq; [now left|right].
  split; [reflexivity|]. now apply no_row_with_email.
Qed.

Lemma submit_bracket_table now entry_id bracket db :
  snd (submit_bracket now entry_id bracket db) = db
  \/ snd (submit_bracket now entry_id bracket db)
     = update_bracket entry_id (Json.dumps (JObj bracket)) db.
Proof.
  unfold submit_bracket.
  destruct (query_first _ db) as [e|]; [|now left].
  destruct (_deadline_passed now); [now left|].
  destruct (Entry.locked e); [now left|now right].
Qed.

(** No write request removes an email from the table. *)
Lemma step_keeps_emails db db' em :
  step db db' ->
  In em (map Entry.email db) -> In em (map Entry.email db').
Proof.
  intros Hs Hin. destruct Hs.
  - destruct (create_entry_table now server_now entry db) as [-> | [-> _]];
      [assumption|].
    rewrite map_app. apply in_or_app. now left.
  - destruct (submit_bracket_table now entry_id bracket db) as [-> | ->];
      [assumption|].
    now rewrite update_bracket_emails.
Qed.

Lemma reachable_keeps_emails db db' em :
  reachable db db' ->
  In em (map Entry.email db) -> In em (map Entry.email db').
Proof.
  induction 1 as [|db1 db2 _ IH Hs]; intros Hin; [assumption|].
  eapply step_keeps_emails; eauto.
Qed.

Lemma email_taken_conflict now server_now entry db :
  datetime_lt now BRACKET_DEADLINE = true ->
  Str.endswith (email_norm_of entry) "@stevens.edu" = true ->
  In (email_norm_of entry) (map Entry.email db) ->
  create_entry now server_now entry db
  = (HTTPException 409 "Email already used", db).
Proof.
  intros Hlt Hdom Hin. apply datetime_lt_ge in Hlt.
  rewrite create_entry_unfold, Hlt, Hdom.
  destruct (query_first _ db) as [e|] eqn:Hq; [reflexivity|].
  pose proof (proj2 (no_row_with_email _ _) Hq) as Hn.
  apply in_map_iff in Hin.
  destruct Hin as (e & He & Hin). now elim (Hn e Hin).
Qed.

(** C2. Of two registrations whose emails normalize (lower-case, then trim)
    to the same string, both made before the deadline, the first succeeds
    when the address has the domain and is not taken, and the second,
    whatever requests were served in between, is refused with the 409 of a
    used email and writes nothing. *)
Theorem same_email_registers_once now1 t1 first now2 t2 second db db2 :
  datetime_lt now1 BRACKET_DEADLINE = true ->
  datetime_lt now2 BRACKET_DEADLINE = true ->
  Str.strip (Str.lower (EntryCreate.email first))
  = Str.strip (Str.lower (EntryCreate.email second)) ->
  Str.endswith (Str.strip (Str.lower (EntryCreate.email first)))
               "@stevens.edu" = true ->
  (forall e, In e db ->
             Entry.email e <> Str.strip (Str.lower (EntryCreate.email first))) ->
  reachable (snd (create_entry now1 t1 first db)) db2 ->
  is_ok (fst (create_entry now1 t1 first db)) = true
  /\ create_entry now2 t2 second db2
     = (HTTPException 409 "Email already used", db2).
Proof.
  intros H1 H2 Hsame Hdom Hfresh Hreach.
  pose proof (create_entry_ok now1 t1 first db H1 Hdom Hfresh) as E.
  rewrite E in *. split; [reflexivity|].
  apply email_taken_conflict;
    [exact H2|unfold email_norm_of; now rewrite <- Hsame|].
  unfold email_norm_of. rewrite <- Hsame.
  eapply reachable_keeps_emails; [exact Hreach|].
  simpl. rewrite map_app. apply in_or_app. right. now left.
Qed.

Lemma same_email_registers_once_witness :
  is_ok (fst (create_entry before_deadline 300 ann [row_locked])) = true
  /\ create_entry before_deadline 400 ann_again
       (snd (submit_bracket before_deadline 2 picks
          (snd (create_entry before_deadline 300 ann [row_locked]))))
     = (HTTPException 409 "Email already used",
        snd (submit_bracket before_deadline 2 picks
          (snd (create_entry before_deadline 300 ann [row_locked])))).
Proof.
  apply (same_email_registers_once before_deadline 300 ann
           before_deadline 400 ann_again [row_locked]);
    try reflexivity.
  - intros e [<-|[]]. vm_compute. discriminate.
  - eapply reachable_step; [apply reachable_refl|apply step_submit_bracket].
Defined.

(** The two spellings of the specification, one after the other. *)
Example same_email_spellings :
  EntryCreate.email ann = "A@Stevens.EDU "
  /\ EntryCreate.email ann_again = "a@stevens.edu"
  /\ is_ok (fst (create_entry before_deadline 300 ann [])) = true
  /\ fst (create_entry before_deadline 400 ann_again
            (snd (create_entry before_deadline 300 ann [])))
     = HTTPException 409 "Email already used".
Proof. repeat split. Qed.

(* ================================================================= *)
(** ** What the read requests show *)


Lemma dict_get_absent k (d : dict) :
  ~ In k (dict_keys d) -> dict_get k d = None.
Proof.
  intros Hk. unfold dict_get.
  replace (find (fun kv => (fst kv =? k)%string) d) with (@None (string * json));
    [reflexivity|].
  symmetry. apply find_none_iff. intros [k' v] Hin. simpl.
  apply String.eqb_neq. intros ->. apply Hk.
  unfold dict_keys. apply in_map_iff. now exists (k, v).
Qed.

Lemma next_id_above db e : In e db -> Entry.id e < next_id db.
Proof.
  unfold next_id. induction db as [|r db IH]; [intros []|].
  cbn [fold_right]. intros [->|Hin]; [lia|]. specialize (IH Hin). lia.
Qed.

Lemma find_app_new {A} (p : A -> bool) (l : list A) (x : A) :
  (forall y, In y l -> p y = false) -> p x = true ->
  find p (l ++ [x])%list = Some x.
Proof.
  intros Hl Hx. induction l as [|y l IH]; simpl.
  - now rewrite Hx.
  - rewrite (Hl y (or_introl eq_refl)). apply IH.
    intros z Hz. apply Hl. now right.
Qed.

(** The row a registration has written is the one its key finds. *)
Lemma query_new_row server_now entry db :
  query_first (fun r => Entry.id r =? next_id db)
              (db ++ [new_row server_now entry db])%list
  = Some (new_row server_now entry db).
Proof.
  apply find_app_new.
  - intros y Hy. apply Z.eqb_neq. pose proof (next_id_above db y Hy). lia.
  - simpl. apply Z.eqb_refl.
Qed.



(* ================================================================= *)
(** ** The leaderboard *)

Lemma ranks_before_iff a b :
  by_score_desc_created_at a b = true <-> ranks_before a b.
Proof.
  unfold by_score_desc_created_at, ranks_before.
  rewrite orb_true_iff, andb_true_iff, Z.ltb_lt, Z.eqb_eq, Z.leb_le.
  reflexivity.
Qed.

Lemma ranks_before_total a b :
  by_score_desc_created_at a b = false -> ranks_before b a.
Proof.
  unfold by_score_desc_created_at, ranks_before.
  rewrite orb_false_iff, andb_false_iff, Z.ltb_ge, Z.eqb_neq, Z.leb_gt. lia.
Qed.

Lemma ranks_before_trans a b c :
  ranks_before a b -> ranks_before b c -> ranks_before a c.
Proof. unfold ranks_before. lia. Qed.

Section OrderBy.

Variable le : Entry.t -> Entry.t -> bool.
Variable R : Entry.t -> Entry.t -> Prop.
Hypothesis le_R : forall a b, le a b = true -> R a b.
Hypothesis le_total : forall a b, le a b = false -> R b a.
Hypothesis R_trans : forall a b c, R a b -> R b c -> R a c.

Lemma insert_by_perm x l : Permutation (insert_by le x l) (x :: l).
Proof.
  induction l as [|y l IH]; simpl; [apply Permutation_refl|].
  destruct (le x y); [apply Permutation_refl|].
  eapply Permutation_trans; [apply perm_skip, IH|apply perm_swap].
Qed.

Lemma order_by_perm db : Permutation (order_by le db) db.
Proof.
  induction db as [|x db IH]; simpl; [constructor|].
  eapply Permutation_trans; [apply insert_by_perm|now apply perm_skip].
Qed.

Lemma insert_by_sorted x l :
  StronglySorted R l -> StronglySorted R (insert_by le x l).
Proof.
  induction 1 as [|y l Hs IH Hy]; simpl.
  - constructor; constructor.
  - destruct (le x y) eqn:Hxy.
    + constructor; [now constructor|].
      constructor; [now apply le_R|].
      eapply Forall_impl; [|exact Hy]. intros z Hz.
      eapply R_trans; [apply le_R; exact Hxy|exact Hz].
    + constructor; [exact IH|].
      apply (Permutation_Forall (Permutation_sym (insert_by_perm x l))).
      constructor; [now apply le_total|exact Hy].
Qed.

Lemma order_by_sorted db : StronglySorted R (order_by le db).
Proof.
  induction db as [|x db IH]; simpl; [constructor|].
  now apply insert_by_sorted.
Qed.

End OrderBy.

(** C4. [leaderboard] shows every row once, by score from the highest down
    and, among rows of one score, by [created_at] from the earliest on: each
    row shown stands before all the rows after it in that order. For
    A (10, earlier), B (20) and C (10, later) it shows B, A, C, in whatever
    order the table holds them. *)
Theorem leaderboard_order :
  (forall db,
      leaderboard db = map leaderboard_item (leaderboard_rows db)
      /\ Permutation (leaderboard_rows db) db
      /\ StronglySorted ranks_before (leaderboard_rows db))
  /\ Forall (fun db => leaderboard db
                       = map leaderboard_item [entry_B; entry_A; entry_C])
       [[entry_A; entry_B; entry_C]; [entry_A; entry_C; entry_B];
        [entry_B; entry_A; entry_C]; [entry_B; entry_C; entry_A];
        [entry_C; entry_A; entry_B]; [entry_C; entry_B; entry_A]].
Proof.
  split.
  - intros db. split; [reflexivity|]. split.
    + apply order_by_perm.
    + apply order_by_sorted with (le := by_score_desc_created_at).
      * intros a b. apply ranks_before_iff.
      * exact ranks_before_total.
      * exact ranks_before_trans.
  - repeat constructor.
Qed.

(* ================================================================= *)
(** ** [json.loads] reads back what [json.dumps] writes *)

Lemma append_assoc (a b c : string) : (a ++ b) ++ c = a ++ (b ++ c).
Proof. induction a as [|x a IH]; simpl; [reflexivity|now rewrite IH]. Qed.

Lemma append_nil_r (a : string) : a ++ "" = a.
Proof. induction a as [|x a IH]; simpl; [reflexivity|now rewrite IH]. Qed.

Lemma append_length (a b : string) :
  String.length (a ++ b) = (String.length a + String.length b)%nat.
Proof. induction a as [|x a IH]; simpl; [reflexivity|now rewrite IH]. Qed.

Lemma ends_value_not_digit rest :
  ends_value rest ->
  match rest with
  | EmptyString => True
  | String c _ =>
      Json.is_digit c = false
      /\ ((c =? ".")%char || (c =? "e")%char || (c =? "E")%char) = false
  end.
Proof.
  destruct rest as [|c r]; simpl; [trivial|].
  intros [-> | [-> | ->]]; split; reflexivity.
Qed.

(** *** Integers *)

Lemma span_digits_uint d rest :
  ends_value rest ->
  Json.span_digits (NilEmpty.string_of_uint d ++ rest)
  = (NilEmpty.string_of_uint d, rest).
Proof.
  intros Hr. apply ends_value_not_digit in Hr.
  induction d; simpl; try (rewrite IHd; reflexivity).
  destruct rest as [|c r]; simpl; [reflexivity|].
  destruct Hr as [Hd _]. now rewrite Hd.
Qed.

(** The digits of a positive number do not start with a zero. *)
Lemma to_uint_head p d : Pos.to_uint p <> Decimal.D0 d.
Proof.
  intros H.
  pose proof (DecimalPos.Unsigned.to_of (Pos.to_uint p)) as E.
  rewrite DecimalPos.Unsigned.of_to in E. simpl in E.
  rewrite H in E at 1. unfold Decimal.unorm in E.
  destruct (Decimal.nzhead (Pos.to_uint p)) eqn:Hn.
  - injection E as ->. now apply (DecimalPos.Unsigned.to_uint_nonzero p).
  - symmetry in E. now apply DecimalFacts.nzhead_nonzero in Hn.
  - discriminate. - discriminate. - discriminate. - discriminate.
  - discriminate. - discriminate. - discriminate. - discriminate.
  - discriminate.
Qed.

Lemma match_uint_digits d rest :
  d = Decimal.zero \/ (exists p, d = Pos.to_uint p) ->
  ends_value rest ->
  Json.match_uint (NilZero.string_of_uint d ++ rest) = Some (d, rest).
Proof.
  intros Hd Hr.
  assert (Hnn : d <> Decimal.Nil).
  { destruct Hd as [-> | [p ->]]; [discriminate|].
    apply DecimalPos.Unsigned.to_uint_nonnil. }
  assert (Hs : NilZero.string_of_uint d = NilEmpty.string_of_uint d)
    by (now destruct d).
  pose proof (NilZero.usu d Hnn) as Hu. rewrite Hs in *.
  unfold Json.match_uint. rewrite (span_digits_uint d rest Hr).
  apply ends_value_not_digit in Hr.
  assert (Hz : forall c more,
             NilEmpty.string_of_uint d = String c more ->
             ((c =? "0")%char && Str.truthy more) = false).
  { intros c more E. destruct Hd as [-> | [p ->]].
    - simpl in E. now injection E as <- <-.
    - destruct (Pos.to_uint p) eqn:Hp; simpl in E; try discriminate;
        injection E as <- <-; try reflexivity.
      now elim (to_uint_head p u). }
  destruct (NilEmpty.string_of_uint d) as [|c more] eqn:E.
  - destruct d; simpl in E; congruence.
  - rewrite (Hz c more eq_refl). rewrite Hu.
    destruct rest as [|x r]; [reflexivity|].
    destruct Hr as [_ Hx]. now rewrite Hx.
Qed.

Lemma uint_string_head d :
  d <> Decimal.Nil ->
  exists c r, NilEmpty.string_of_uint d = String c r
              /\ Json.is_digit c = true.
Proof.
  destruct d; [congruence| | | | | | | | | |]; intros _; simpl;
    eexists; eexists; (split; [reflexivity|reflexivity]).
Qed.

Lemma match_number_repr z rest :
  ends_value rest ->
  Json.match_number (Json.repr_int z ++ rest) = Some (z, rest).
Proof.
  intros Hr. unfold Json.repr_int.
  pose proof (DecimalZ.of_to z) as Hz.
  destruct z as [|p|p]; simpl Z.to_int in *; simpl NilZero.string_of_int.
  - simpl. unfold Json.match_number. simpl.
    change (String "0" rest) with (NilZero.string_of_uint Decimal.zero ++ rest).
    rewrite match_uint_digits; auto. 
  - assert (Hnn := DecimalPos.Unsigned.to_uint_nonnil p).
    destruct (uint_string_head _ Hnn) as (c & r & E & Hc).
    assert (Hs : NilZero.string_of_uint (Pos.to_uint p)
                 = NilEmpty.string_of_uint (Pos.to_uint p))
      by (now destruct (Pos.to_uint p)).
    unfold Json.match_number.
    destruct (NilZero.string_of_uint (Pos.to_uint p) ++ rest) as [|c' r'] eqn:E'.
    + rewrite Hs, E in E'. discriminate.
    + assert (c' = c) by (rewrite Hs, E in E'; simpl in E'; congruence).
      subst c'.
      assert (Hm : (c =? "-")%char = false).
      { destruct c as [[] [] [] [] [] [] [] []]; try discriminate; reflexivity. }
      rewrite Hm, <- E'. rewrite match_uint_digits; eauto.
      cbn [option_map fst snd]. now rewrite Hz.
  - unfold Json.match_number. cbn [append Ascii.eqb Bool.eqb].
    rewrite match_uint_digits; eauto.
    cbn [option_map fst snd]. now rewrite Hz.
Qed.

(** *** Strings *)

Lemma scanstring_escape_char c t :
  Json.scanstring (Json.escape_char c ++ t) = Json.push c (Json.scanstring t).
Proof. destruct c as [[] [] [] [] [] [] [] []]; reflexivity. Qed.

Lemma scanstring_escape s rest :
  Json.scanstring (Json.escape s ++ String Json.dquote rest) = Some (s, rest).
Proof.
  induction s as [|c s IH]; [reflexivity|].
  cbn [Json.escape]. rewrite append_assoc, scanstring_escape_char, IH.
  reflexivity.
Qed.

Lemma encode_basestring_ascii_app s rest :
  Json.encode_basestring_ascii s ++ rest
  = String Json.dquote (Json.escape s ++ String Json.dquote rest).
Proof.
  unfold Json.encode_basestring_ascii, Json.quoted.
  cbn [append]. now rewrite append_assoc.
Qed.

(** *** The steps of the decoder *)

(** Decide the tests on characters that are known. *)
Ltac char_tests :=
  repeat match goal with
         | |- context [Ascii.eqb ?a ?b] =>
             let v := eval vm_compute in (Ascii.eqb a b) in
             change (Ascii.eqb a b) with v
         end;
  cbv iota.

Lemma skip_ws_value s : starts_value s -> Json.skip_ws s = s.
Proof.
  destruct s as [|c r]; [intros []|]. intros (Hw & _). simpl. now rewrite Hw.
Qed.

Lemma skip_ws_space r : Json.skip_ws (String " " r) = Json.skip_ws r.
Proof. reflexivity. Qed.

Lemma skip_ws_comma r : Json.skip_ws (String "," r) = String "," r.
Proof. reflexivity. Qed.

Lemma skip_ws_colon r : Json.skip_ws (String ":" r) = String ":" r.
Proof. reflexivity. Qed.

Lemma scan_once_string f s rest :
  Json.scan_once (S f) (Json.encode_basestring_ascii s ++ rest)
  = Some (JStr s, rest).
Proof.
  rewrite encode_basestring_ascii_app.
  cbn [Json.scan_once]. char_tests. now rewrite scanstring_escape.
Qed.

Lemma scan_once_empty_array f rest :
  Json.scan_once (S f) (String "[" (String "]" rest)) = Some (JArr [], rest).
Proof. reflexivity. Qed.

Lemma scan_once_empty_object f rest :
  Json.scan_once (S f) (String "{" (String "}" rest)) = Some (JObj [], rest).
Proof. reflexivity. Qed.

Lemma scan_once_array f r vs rest :
  starts_value r ->
  Json.elements f r = Some (vs, rest) ->
  Json.scan_once (S f) (String "[" r) = Some (JArr vs, rest).
Proof.
  intros Hr He. cbn [Json.scan_once]. char_tests.
  rewrite (skip_ws_value r Hr).
  destruct r as [|c1 r1]; [destruct Hr|]. destruct Hr as (_ & Hc & _).
  now rewrite Hc, He.
Qed.

Lemma scan_once_object f r ps rest :
  starts_value r ->
  Json.members f r = Some (ps, rest) ->
  Json.scan_once (S f) (String "{" r) = Some (JObj (dict_of_pairs ps), rest).
Proof.
  intros Hr He. cbn [Json.scan_once]. char_tests.
  rewrite (skip_ws_value r Hr).
  destruct r as [|c1 r1]; [destruct Hr|]. destruct Hr as (_ & _ & Hc).
  now rewrite Hc, He.
Qed.

Lemma elements_last f s v rest :
  Json.scan_once f s = Some (v, String "]" rest) ->
  Json.elements (S f) s = Some ([v], rest).
Proof. intros H. cbn [Json.elements]. now rewrite H. Qed.

Lemma elements_more f s v r vs rest :
  Json.scan_once f s = Some (v, String "," (String " " r)) ->
  starts_value r ->
  Json.elements f r = Some (vs, rest) ->
  Json.elements (S f) s = Some (v :: vs, rest).
Proof.
  intros H Hr He. cbn [Json.elements]. rewrite H, skip_ws_comma. char_tests.
  now rewrite skip_ws_space, (skip_ws_value r Hr), He.
Qed.

Lemma members_last f k s v rest :
  Json.scan_once f s = Some (v, String "}" rest) ->
  starts_value s ->
  Json.members (S f)
    (Json.encode_basestring_ascii k ++ String ":" (String " " s))
  = Some ([(k, v)], rest).
Proof.
  intros H Hs. rewrite encode_basestring_ascii_app. cbn [Json.members].
  char_tests. rewrite scanstring_escape, skip_ws_colon. char_tests.
  now rewrite skip_ws_space, (skip_ws_value s Hs), H.
Qed.

Lemma members_more f k s v r ps rest :
  Json.scan_once f s = Some (v, String "," (String " " r)) ->
  starts_value s -> starts_value r ->
  Json.members f r = Some (ps, rest) ->
  Json.members (S f)
    (Json.encode_basestring_ascii k ++ String ":" (String " " s))
  = Some ((k, v) :: ps, rest).
Proof.
  intros H Hs Hr He. rewrite encode_basestring_ascii_app. cbn [Json.members].
  char_tests. rewrite scanstring_escape, skip_ws_colon. char_tests.
  rewrite skip_ws_space, (skip_ws_value s Hs), H, skip_ws_comma. char_tests.
  now rewrite skip_ws_space, (skip_ws_value r Hr), He.
Qed.

(** *** Values *)

Lemma json_induction (P : json -> Prop) :
  P JNull -> (forall b, P (JBool b)) -> (forall z, P (JInt z)) ->
  (forall s, P (JStr s)) ->
  (forall l, Forall P l -> P (JArr l)) ->
  (forall m, Forall (fun kv => P (snd kv)) m -> P (JObj m)) ->
  forall v, P v.
Proof.
  intros Hnull Hbool Hint Hstr Harr Hobj.
  fix IH 1. intros [ |b|z|s|l|m].
  - exact Hnull.
  - apply Hbool.
  - apply Hint.
  - apply Hstr.
  - apply Harr. induction l as [|x l IHl]; constructor; [apply IH|exact IHl].
  - apply Hobj. induction m as [|[k x] m IHm]; constructor;
      [apply IH|exact IHm].
Qed.

Lemma dumps_object m :
  Json.dumps (JObj m) = "{" ++ Json.join (map dumps_member m) ++ "}".
Proof.
  cbn [Json.dumps]. do 3 f_equal. apply map_ext. now intros [k x].
Qed.

Lemma join_cons2 x y t :
  Json.join (x :: y :: t) = x ++ String "," (String " " (Json.join (y :: t))).
Proof. reflexivity. Qed.

Lemma digit_starts_value c :
  Json.is_digit c = true ->
  Json.is_ws c = false /\ (c =? "]")%char = false /\ (c =? "}")%char = false.
Proof.
  destruct c as [[] [] [] [] [] [] [] []]; intros H;
    try discriminate H; repeat split.
Qed.

Lemma repr_int_head z rest :
  exists c r, Json.repr_int z ++ rest = String c r
              /\ (Json.is_digit c = true \/ c = "-"%char).
Proof.
  unfold Json.repr_int. destruct z as [|p|p]; simpl Z.to_int.
  - exists "0"%char, rest. split; [reflexivity|now left].
  - assert (Hnn := DecimalPos.Unsigned.to_uint_nonnil p).
    destruct (uint_string_head _ Hnn) as (c & r & E & Hc).
    exists c, (r ++ rest). split; [|now left].
    cbn [NilZero.string_of_int].
    replace (NilZero.string_of_uint (Pos.to_uint p))
      with (NilEmpty.string_of_uint (Pos.to_uint p))
      by (now destruct (Pos.to_uint p)).
    now rewrite E.
  - eexists. eexists. split; [reflexivity|now right].
Qed.

Lemma dumps_starts v rest : starts_value (Json.dumps v ++ rest).
Proof.
  destruct v as [ |[]|z|s|l|m]; try (cbn; repeat split; fail).
  cbn [Json.dumps].
  destruct (repr_int_head z rest) as (c & r & -> & [Hc| ->]).
  - now apply digit_starts_value.
  - repeat split.
Qed.

Lemma join_starts {A} (d : A -> string) (l : list A) rest :
  l <> [] -> (forall x r, starts_value (d x ++ r)) ->
  starts_value (Json.join (map d l) ++ rest).
Proof.
  intros Hl Hd. destruct l as [|x [|y t]]; [congruence| |].
  - apply Hd.
  - cbn [map]. rewrite join_cons2, append_assoc. apply Hd.
Qed.

Lemma dumps_member_starts kv r : starts_value (dumps_member kv ++ r).
Proof.
  unfold dumps_member. rewrite append_assoc, encode_basestring_ascii_app.
  repeat split.
Qed.

Lemma scan_once_number f c r :
  Json.is_digit c = true \/ c = "-"%char ->
  Json.scan_once (S f) (String c r)
  = option_map (fun zr => (JInt (fst zr), snd zr))
               (Json.match_number (String c r)).
Proof.
  intros [H| ->]; [|reflexivity].
  destruct c as [[] [] [] [] [] [] [] []]; try discriminate H; reflexivity.
Qed.

Lemma reads_back_int z : reads_back (JInt z).
Proof.
  intros [|f] rest Hf Hr; [simpl in Hf; lia|]. cbn [Json.dumps].
  destruct (repr_int_head z rest) as (c & r & E & Hc).
  rewrite E, (scan_once_number f c r Hc), <- E.
  now rewrite (match_number_repr z rest Hr).
Qed.

Lemma elements_dumps l :
  Forall reads_back l -> l <> [] ->
  forall fuel rest,
    (fold_right (fun x n => S (weight x + n)) O l <= fuel)%nat ->
    Json.elements fuel (Json.join (map Json.dumps l) ++ String "]" rest)
    = Some (l, rest).
Proof.
  induction 1 as [|v t Hv Ht IH]; [congruence|]. intros _ fuel rest Hf.
  cbn [fold_right] in Hf. destruct fuel as [|f]; [lia|].
  destruct t as [|v2 t'].
  - cbn [map Json.join]. apply elements_last.
    apply Hv; [cbn [fold_right] in Hf; lia|]. simpl. tauto.
  - cbn [map]. rewrite join_cons2, append_assoc. cbn [append].
    apply elements_more with
      (r := Json.join (map Json.dumps (v2 :: t')) ++ String "]" rest).
    + apply Hv; [lia|]. simpl. tauto.
    + apply join_starts; [discriminate|apply dumps_starts].
    + apply IH; [discriminate|lia].
Qed.

Lemma members_dumps m :
  Forall (fun kv => reads_back (snd kv)) m -> m <> [] ->
  forall fuel rest,
    (fold_right (fun kv n => S (weight (snd kv) + n)) O m <= fuel)%nat ->
    Json.members fuel (Json.join (map dumps_member m) ++ String "}" rest)
    = Some (m, rest).
Proof.
  induction 1 as [|[k v] t Hv Ht IH]; [congruence|]. intros _ fuel rest Hf.
  cbn [fold_right snd] in Hf. cbn [snd] in Hv.
  destruct fuel as [|f]; [lia|].
  destruct t as [|kv2 t'].
  - cbn [map Json.join]. unfold dumps_member. cbn [fst snd].
    rewrite !append_assoc. cbn [append].
    apply members_last.
    + apply Hv; [cbn [fold_right] in Hf; lia|]. simpl. tauto.
    + apply dumps_starts.
  - cbn [map]. rewrite join_cons2. unfold dumps_member at 1. cbn [fst snd].
    rewrite !append_assoc. cbn [append].
    apply members_more with
      (r := Json.join (map dumps_member (kv2 :: t')) ++ String "}" rest).
    + apply Hv; [lia|]. simpl. tauto.
    + apply dumps_starts.
    + apply join_starts; [discriminate|apply dumps_member_starts].
    + apply IH; [discriminate|lia].
Qed.

(** *** Dicts with distinct keys *)

Lemma dict_set_new k v (d : dict) :
  existsb (String.eqb k) (map fst d) = false ->
  dict_set k v d = (d ++ [(k, v)])%list.
Proof.
  induction d as [|[k' v'] d IH]; simpl; [reflexivity|].
  rewrite orb_false_iff. intros [Hk Hd].
  rewrite String.eqb_sym, Hk. now rewrite IH.
Qed.

Lemma dict_of_pairs_acc ps : forall acc : dict,
  unique_keys (map fst ps) = true ->
  (forall k, In k (map fst ps) -> existsb (String.eqb k) (map fst acc) = false) ->
  fold_left (fun d kv => dict_set (fst kv) (snd kv) d) ps acc
  = (acc ++ ps)%list.
Proof.
  induction ps as [|[k v] ps IH]; intros acc Hu Hd; simpl.
  - now rewrite List.app_nil_r.
  - simpl in Hu. apply andb_true_iff in Hu. destruct Hu as [Hk Hu].
    apply negb_true_iff in Hk.
    rewrite dict_set_new by (apply Hd; now left).
    rewrite IH; [now rewrite <- List.app_assoc|exact Hu|].
    intros k' Hk'. rewrite map_app, existsb_app. simpl.
    rewrite (Hd k' (or_intror Hk')), orb_false_r. simpl.
    destruct (String.eqb_spec k' k) as [->|]; [|reflexivity].
    exfalso. assert (existsb (String.eqb k) (map fst ps) = true);
      [|congruence].
    apply existsb_exists. exists k. split; [exact Hk'|apply String.eqb_refl].
Qed.

Lemma dict_of_pairs_unique (m : dict) :
  unique_keys (map fst m) = true -> dict_of_pairs m = m.
Proof.
  intros Hu. unfold dict_of_pairs.
  now rewrite dict_of_pairs_acc by (auto; reflexivity).
Qed.

(** *** The round trip *)

Lemma reads_back_wf v : wf_json v = true -> reads_back v.
Proof.
  induction v as [ |b|z|s|l IH|m IH] using json_induction; intros Hwf.
  - intros [|f] rest Hf _; [simpl in Hf; lia|reflexivity].
  - intros [|f] rest Hf _; [simpl in Hf; lia|]. now destruct b.
  - apply reads_back_int.
  - intros [|f] rest Hf _; [simpl in Hf; lia|]. apply scan_once_string.
  - cbn [wf_json] in Hwf. rewrite forallb_forall in Hwf.
    assert (Hl : Forall reads_back l).
    { rewrite Forall_forall in *. intros x Hx. apply IH; auto. }
    intros [|f] rest Hf Hr; [simpl in Hf; lia|].
    cbn [weight] in Hf. cbn [Json.dumps]. cbn [append].
    rewrite append_assoc. cbn [append].
    destruct l as [|x l].
    + apply scan_once_empty_array.
    + apply scan_once_array.
      * apply join_starts; [discriminate|apply dumps_starts].
      * apply elements_dumps; [exact Hl|discriminate|lia].
  - cbn [wf_json] in Hwf. apply andb_true_iff in Hwf.
    destruct Hwf as [Hu Hwf]. rewrite forallb_forall in Hwf.
    assert (Hm : Forall (fun kv => reads_back (snd kv)) m).
    { rewrite Forall_forall in *. intros x Hx. apply IH; auto. }
    intros [|f] rest Hf Hr; [simpl in Hf; lia|].
    cbn [weight] in Hf. rewrite dumps_object. cbn [append].
    rewrite append_assoc. cbn [append].
    destruct m as [|kv m].
    + apply scan_once_empty_object.
    + rewrite <- (dict_of_pairs_unique (kv :: m) Hu) at 2.
      apply scan_once_object.
      * apply join_starts; [discriminate|apply dumps_member_starts].
      * apply members_dumps; [exact Hm|discriminate|lia].
Qed.

Lemma join_weight {A} (w : A -> nat) (d : A -> string) (l : list A) :
  Forall (fun x => (w x <= String.length (d x))%nat) l ->
  (fold_right (fun x n => S (w x + n)) O l
   <= S (String.length (Json.join (map d l))))%nat.
Proof.
  induction 1 as [|x t Hx Ht IH]; [simpl; lia|].
  destruct t as [|y t'].
  - simpl. lia.
  - cbn [map fold_right] in *. rewrite join_cons2, append_length.
    cbn [String.length]. lia.
Qed.

Lemma weight_le_length v : (weight v <= String.length (Json.dumps v))%nat.
Proof.
  induction v as [ |b|z|s|l IH|m IH] using json_induction.
  - simpl. lia.
  - destruct b; simpl; lia.
  - cbn [weight Json.dumps].
    destruct (repr_int_head z "") as (c & r & E & _).
    rewrite append_nil_r in E. rewrite E. simpl. lia.
  - simpl. lia.
  - cbn [weight Json.dumps append]. cbn [String.length].
    rewrite append_length. cbn [String.length].
    pose proof (join_weight weight Json.dumps l IH). lia.
  - cbn [weight]. rewrite dumps_object. cbn [append String.length].
    rewrite append_length. cbn [String.length].
    assert (H : Forall (fun kv => (weight (snd kv)
                                   <= String.length (dumps_member kv))%nat) m).
    { eapply Forall_impl; [|exact IH]. intros [k x] Hx. cbn [snd] in *.
      unfold dumps_member. rewrite !append_length. cbn [snd]. lia. }
    pose proof (join_weight (fun kv => weight (snd kv)) dumps_member m H). lia.
Qed.

(** [json.loads(json.dumps(v)) == v] *)
Lemma loads_dumps v : wf_json v = true -> Json.loads (Json.dumps v) = Some v.
Proof.
  intros Hwf. unfold Json.loads.
  pose proof (dumps_starts v "") as Hs. rewrite append_nil_r in Hs.
  rewrite (skip_ws_value _ Hs).
  pose proof (reads_back_wf v Hwf (S (String.length (Json.dumps v))) "") as H.
  rewrite append_nil_r in H. rewrite H; [reflexivity| |exact I].
  pose proof (weight_le_length v). lia.
Qed.

(** The text of a document is never the empty string. *)
Lemma dumps_truthy v : Str.truthy (Json.dumps v) = true.
Proof.
  pose proof (dumps_starts v "") as Hs. rewrite append_nil_r in Hs.
  destruct (Json.dumps v); [destruct Hs|reflexivity].
Qed.

Lemma load_bracket_dumps v :
  wf_json v = true -> load_bracket (Some (Json.dumps v)) = Some v.
Proof.
  intros Hwf. unfold load_bracket. now rewrite dumps_truthy, loads_dumps.
Qed.

(* ================================================================= *)
(** ** Submitting and reading a bracket *)

Lemma query_updated entry_id txt db e :
  query_first (fun r => Entry.id r =? entry_id) db = Some e ->
  query_first (fun r => Entry.id r =? entry_id)
              (update_bracket entry_id txt db)
  = Some (Entry.with_bracket e txt).
Proof.
  unfold query_first. induction db as [|r db IH]; simpl; [discriminate|].
  destruct (Entry.id r =? entry_id) eqn:Hr.
  - intros [= ->]. simpl. now rewrite Hr.
  - intros H. simpl. rewrite Hr. now apply IH.
Qed.

(** C5. Before the deadline, a submission of the document [bracket] to an
    entry that exists and is not locked succeeds, and [get_entry] on the
    table it leaves shows under ["bracket"] the very document submitted,
    whatever was stored before: a key that [bracket] does not have is not
    in the bracket shown. The keys of every dict in the document are
    distinct, as they are in a Python [dict]. *)
Theorem submitted_bracket_round_trip now entry_id bracket db e :
  datetime_lt now BRACKET_DEADLINE = true ->
  query_first (fun r => Entry.id r =? entry_id) db = Some e ->
  Entry.locked e = false ->
  wf_json (JObj bracket) = true ->
  exists db' shown,
    submit_bracket now entry_id bracket db
    = (Ok [("status", JStr "saved"); ("entry_id", JInt entry_id)], db')
    /\ get_entry entry_id db' = Ok shown
    /\ dict_get "bracket" shown = Some (JObj bracket)
    /\ (forall k, ~ In k (dict_keys bracket) ->
                  exists b, dict_get "bracket" shown = Some (JObj b)
                            /\ dict_get k b = None).
Proof.
  intros Hlt He Hl Hwf.
  rewrite (submit_bracket_ok now entry_id bracket db e Hlt He Hl).
  eexists. eexists. split; [reflexivity|].
  unfold get_entry.
  rewrite (query_updated entry_id _ db e He).
  cbn [Entry.with_bracket Entry.bracket].
  rewrite (load_bracket_dumps _ Hwf).
  split; [reflexivity|]. split; [reflexivity|].
  intros k Hk. exists bracket. split; [reflexivity|].
  now apply dict_get_absent.
Qed.

Lemma submitted_bracket_round_trip_witness :
  exists db' shown,
    submit_bracket before_deadline 5 picks [row_open; row_submitted]
    = (Ok [("status", JStr "saved"); ("entry_id", JInt 5)], db')
    /\ get_entry 5 db' = Ok shown
    /\ dict_get "bracket" shown = Some (JObj picks)
    /\ exists b, dict_get "bracket" shown = Some (JObj b)
                 /\ dict_get "old" b = None.
Proof.
  destruct (submitted_bracket_round_trip before_deadline 5 picks
              [row_open; row_submitted] row_submitted
              eq_refl eq_refl eq_refl eq_refl)
    as (db' & shown & H1 & H2 & H3 & H4).
  exists db', shown. repeat split; try assumption.
  apply H4. simpl. intuition discriminate.
Defined.

(** The key ["old"] of the bracket on file is gone after the submission. *)
Example resubmission_drops_old_keys :
  (exists shown b,
      get_entry 5 [row_open; row_submitted] = Ok shown
      /\ dict_get "bracket" shown = Some (JObj b)
      /\ dict_get "old" b = Some (JInt 1))
  /\ (exists shown b,
      get_entry 5 (snd (submit_bracket before_deadline 5 picks
                          [row_open; row_submitted])) = Ok shown
      /\ dict_get "bracket" shown = Some (JObj b)
      /\ dict_get "old" b = None
      /\ b = picks).
Proof.
  split; eexists; eexists; repeat split; vm_compute; reflexivity.
Qed.

(* ================================================================= *)
(** ** The constraints of the table hold through the requests *)

Lemma update_bracket_ids entry_id txt db :
  map Entry.id (update_bracket entry_id txt db) = map Entry.id db.
Proof.
  induction db as [|e db IH]; simpl; [reflexivity|].
  destruct (Entry.id e =? entry_id); simpl; [reflexivity|now rewrite IH].
Qed.

Lemma NoDup_snoc {A} (l : list A) (x : A) :
  NoDup l -> ~ In x l -> NoDup (l ++ [x])%list.
Proof.
  intros Hl Hx.
  apply (Permutation_NoDup (Permutation_cons_append l x)).
  now constructor.
Qed.

Lemma step_keeps_constraints db db' :
  step db db' ->
  primary_key db /\ uq_entries_email db
  /\ Forall (fun e => normalized (Entry.email e)) db ->
  primary_key db' /\ uq_entries_email db'
  /\ Forall (fun e => normalized (Entry.email e)) db'.
Proof.
  unfold primary_key, uq_entries_email.
  intros Hs (Hid & Hem & Hn). destruct Hs.
  - destruct (create_entry_table now server_now entry db)
      as [-> | [-> Hfresh]]; [now repeat split|].
    rewrite !map_app. simpl. repeat split.
    + apply NoDup_snoc; [exact Hid|]. intros Hin.
      apply in_map_iff in Hin. destruct Hin as (e & He & Hin).
      pose proof (next_id_above db e Hin). lia.
    + apply NoDup_snoc; [exact Hem|]. intros Hin.
      apply in_map_iff in Hin. destruct Hin as (e & He & Hin).
      now apply (Hfresh e Hin).
    + apply Forall_app. split; [exact Hn|]. constructor; [|constructor].
      apply normalize_normalized.
  - destruct (submit_bracket_table now entry_id bracket db) as [-> | ->];
      [now repeat split|].
    rewrite update_bracket_ids, update_bracket_emails. repeat split; auto.
    clear Hid Hem. induction Hn as [|e db He Hn IH]; simpl; [constructor|].
    destruct (Entry.id e =? entry_id); constructor; auto.
Qed.

(** From the empty table on, keys and emails stay distinct and every email
    is normalized. *)
Lemma reachable_constraints db :
  reachable [] db ->
  primary_key db /\ uq_entries_email db
  /\ Forall (fun e => normalized (Entry.email e)) db.
Proof.
  induction 1 as [|db1 db2 _ IH Hs].
  - repeat split; constructor.
  - now apply (step_keeps_constraints db1 db2).
Qed.

(** Under the primary key the lookup by id finds the one row of that id. *)
Lemma query_first_unique db e :
  primary_key db -> In e db ->
  query_first (fun r => Entry.id r =? Entry.id e) db = Some e.
Proof.
  unfold primary_key, query_first.
  induction db as [|r db IH]; simpl; [intros _ []|].
  intros Hnd [->|Hin]; [now rewrite Z.eqb_refl|].
  inversion Hnd as [|? ? Hr Hnd']; subst.
  destruct (Entry.id r =? Entry.id e) eqn:Heq; [|now apply IH].
  apply Z.eqb_eq in Heq. exfalso. apply Hr. rewrite Heq.
  now apply in_map.
Qed.

(* ================================================================= *)
(** ** More on the deadline *)

Lemma lex_ge_trans (a : list Z) : forall b c,
  List.length a = List.length b -> List.length b = List.length c ->
  lex_compare a b <> Lt -> lex_compare b c <> Lt -> lex_compare a c <> Lt.
Proof.
  induction a as [|x a IH]; intros [|y b] [|z c]; simpl; try discriminate;
    try congruence.
  intros Hab Hbc.
  destruct (Z.compare_spec x y), (Z.compare_spec y z), (Z.compare_spec x z);
    intros K1 K2; try congruence; try lia.
  apply (IH b c); congruence.
Qed.

(** X1. The contest is closed from the first instant of 19 March 2026 on,
    at any time of the day: [_deadline_passed] holds exactly when the date of
    the reading is that day or a later one. *)
Theorem deadline_is_start_of_day now :
  0 <= hour now -> 0 <= minute now -> 0 <= second now ->
  0 <= microsecond now ->
  (_deadline_passed now = true <->
   2026 < year now \/
   (year now = 2026 /\ (3 < month now \/ (month now = 3 /\ 19 <= day now)))).
Proof. exact (deadline_passed_civil now). Qed.

Lemma deadline_is_start_of_day_witness :
  _deadline_passed (mk_datetime 2026 3 19 0 0 0 0) = true
  /\ (_deadline_passed before_deadline = true -> 19 <= day before_deadline).
Proof.
  split.
  - apply (deadline_is_start_of_day (mk_datetime 2026 3 19 0 0 0 0));
      simpl; lia.
  - intros H.
    apply (deadline_is_start_of_day before_deadline) in H; simpl in *; lia.
Defined.

(** X2. Once a reading of the clock is past the deadline, every later
    reading is: a registration made then is refused with the 403, and no
    submission succeeds. *)
Theorem deadline_stays_passed now later :
  _deadline_passed now = true ->
  datetime_ge later now = true ->
  _deadline_passed later = true
  /\ (forall server_now entry db,
         create_entry later server_now entry db
         = (HTTPException 403 closed_detail_entry, db))
  /\ (forall entry_id bracket db,
         is_ok (fst (submit_bracket later entry_id bracket db)) = false).
Proof.
  unfold _deadline_passed. intros Hn Hl.
  assert (H : datetime_ge later BRACKET_DEADLINE = true).
  { revert Hn Hl. unfold datetime_ge, datetime_compare.
    pose proof (lex_ge_trans (datetime_fields later) (datetime_fields now)
                  (datetime_fields BRACKET_DEADLINE) eq_refl eq_refl) as T.
    destruct (lex_compare (datetime_fields now)
                          (datetime_fields BRACKET_DEADLINE)) eqn:E1;
      try discriminate;
      destruct (lex_compare (datetime_fields later) (datetime_fields now))
        eqn:E2; try discriminate;
      destruct (lex_compare (datetime_fields later)
                            (datetime_fields BRACKET_DEADLINE)) eqn:E3;
      try reflexivity; intros _ _; exfalso; apply T; congruence. }
  split; [exact H|]. split.
  - intros. now apply create_entry_closed.
  - intros. now apply submit_bracket_never_ok_when_closed.
Qed.

Lemma deadline_stays_passed_witness :
  _deadline_passed later_reading = true
  /\ create_entry later_reading 900 ann []
     = (HTTPException 403 closed_detail_entry, []).
Proof.
  destruct (deadline_stays_passed after_deadline later_reading
              eq_refl eq_refl) as (H1 & H2 & _).
  split; [exact H1|apply H2].
Defined.

(* ================================================================= *)
(** ** More on registration *)

(** X3. The refusals of [create_entry] come in a fixed order: when it
    raises an [HTTPException], the status is 403 and the deadline has come,
    or it is 400, the deadline has not come and the normalized address is
    outside the domain, or it is 409, the deadline has not come, the address
    has the domain and some row of the table holds it. *)
Theorem create_entry_refusals now server_now entry db status detail :
  fst (create_entry now server_now entry db) = HTTPException status detail ->
  (status = 403 /\ datetime_ge now BRACKET_DEADLINE = true)
  \/ (status = 400 /\ datetime_lt now BRACKET_DEADLINE = true
      /\ Str.endswith (Str.strip (Str.lower (EntryCreate.email entry)))
                      "@stevens.edu" = false)
  \/ (status = 409 /\ datetime_lt now BRACKET_DEADLINE = true
      /\ Str.endswith (Str.strip (Str.lower (EntryCreate.email entry)))
                      "@stevens.edu" = true
      /\ exists e, In e db
                   /\ Entry.email e
                      = Str.strip (Str.lower (EntryCreate.email entry))).
Proof.
  unfold create_entry, _deadline_passed.
  destruct (datetime_ge now BRACKET_DEADLINE) eqn:Hge.
  - intros [= <- _]. now left.
  - assert (Hlt : datetime_lt now BRACKET_DEADLINE = true)
      by (now apply datetime_lt_ge).
    destruct (Str.endswith _ _) eqn:Hdom; cbn [negb].
    + destruct (query_first _ db) as [e|] eqn:Hq.
      * intros [= <- _]. right. right. repeat split; auto.
        apply find_some in Hq. destruct Hq as [Hin Heq].
        apply String.eqb_eq in Heq. now exists e.
      * destruct (insert_entry _ _ _ _ db) as [[new_entry db']|];
          discriminate.
    + intros [= <- _]. right. left. now repeat split.
Qed.

Lemma create_entry_refusals_witness :
  exists e, In e [row_open]
            /\ Entry.email e
               = Str.strip (Str.lower (EntryCreate.email ann_again)).
Proof.
  destruct (create_entry_refusals before_deadline 400 ann_again
              [row_open] 409 "Email already used" eq_refl)
    as [[H _]|[[H _]|(_ & _ & _ & He)]]; [discriminate|discriminate|exact He].
Defined.

(** X4. A registration that succeeds can be read back at once: its response
    carries the new id, the trimmed name and the normalized email, and
    [get_entry] on that id shows the fields of the response followed by an
    empty bracket, [locked = false] and [score = 0]. *)
Theorem registered_entry_is_shown now server_now entry db created db' :
  create_entry now server_now entry db = (Ok created, db') ->
  exists new_id,
    dict_get "id" created = Some (JInt new_id)
    /\ dict_get "name" created
       = Some (JStr (Str.strip (EntryCreate.name entry)))
    /\ dict_get "email" created
       = Some (JStr (Str.strip (Str.lower (EntryCreate.email entry))))
    /\ get_entry new_id db'
       = Ok (created ++ [("bracket", JObj []); ("locked", JBool false);
                         ("score", JInt 0)])%list.
Proof.
  intros H. apply create_entry_ok_inv in H.
  destruct H as (_ & _ & _ & -> & ->).
  exists (next_id db). repeat split.
  unfold get_entry. rewrite query_new_row. reflexivity.
Qed.

Lemma registered_entry_is_shown_witness :
  exists new_id,
    dict_get "id" (created_response (new_row 300 ann [row_locked]))
    = Some (JInt new_id)
    /\ dict_get "name" (created_response (new_row 300 ann [row_locked]))
       = Some (JStr "Ann")
    /\ dict_get "email" (created_response (new_row 300 ann [row_locked]))
       = Some (JStr "a@stevens.edu")
    /\ get_entry new_id ([row_locked] ++ [new_row 300 ann [row_locked]])%list
       = Ok [("id", JInt 3); ("name", JStr "Ann");
             ("email", JStr "a@stevens.edu"); ("username", JStr "ann1");
             ("bracket", JObj []); ("locked", JBool false);
             ("score", JInt 0)].
Proof.
  exact (registered_entry_is_shown before_deadline 300 ann [row_locked]
           _ _ eq_refl).
Defined.

Lemma lstrip_all_space s : all_space s = true -> Str.lstrip s = EmptyString.
Proof.
  induction s as [|c s IH]; simpl; [reflexivity|].
  intros H. apply andb_true_iff in H. destruct H as [Hc Hs].
  rewrite Hc. now apply IH.
Qed.

(** X5. The username a registration stores: none when the request has none
    or an empty one, else the request's username trimmed; a username of
    white space only is stored as the empty string, not as none. *)
Theorem stored_username now server_now entry db created db' :
  create_entry now server_now entry db = (Ok created, db') ->
  exists e,
    db' = (db ++ [e])%list
    /\ (Entry.username e = None <->
        EntryCreate.username entry = None
        \/ EntryCreate.username entry = Some EmptyString)
    /\ (forall u, EntryCreate.username entry = Some u -> u <> EmptyString ->
                  Entry.username e = Some (Str.strip u))
    /\ (forall u, EntryCreate.username entry = Some u -> u <> EmptyString ->
                  all_space u = true ->
                  Entry.username e = Some EmptyString).
Proof.
  intros H. apply create_entry_ok_inv in H.
  destruct H as (_ & _ & _ & _ & ->).
  exists (new_row server_now entry db). split; [reflexivity|].
  cbn [new_row Entry.username]. unfold username_of.
  destruct (EntryCreate.username entry) as [[|c u]|]; simpl.
  - split; [split; auto|]. split; intros u [= <-] Hu; congruence.
  - split; [split; [discriminate|intros [|]; discriminate]|].
    split; intros u' [= <-] Hu; [reflexivity|].
    intros Hs. unfold Str.strip.
    now rewrite (lstrip_all_space (String c u) Hs).
  - split; [split; auto|]. split; intros u [=].
Qed.

Lemma stored_username_witness :
  exists e,
    ([row_open] ++ [new_row 300 cy [row_open]])%list = ([row_open] ++ [e])%list
    /\ Entry.username e = Some EmptyString.
Proof.
  destruct (stored_username before_deadline 300 cy [row_open] _ _ eq_refl)
    as (e & He & _ & _ & H).
  exists e. split; [exact He|].
  apply (H "  "); [reflexivity|discriminate|reflexivity].
Defined.

(** *** The test of the domain *)

Lemma substring_all s : substring 0 (String.length s) s = s.
Proof. induction s as [|c s IH]; simpl; [reflexivity|now rewrite IH]. Qed.

Lemma substring_after p s :
  substring (String.length p) (String.length s) (p ++ s) = s.
Proof. induction p as [|c p IH]; simpl; [apply substring_all|exact IH]. Qed.

Lemma substring_split s : forall k,
  (k <= String.length s)%nat ->
  s = substring 0 k s ++ substring k (String.length s - k) s.
Proof.
  induction s as [|c s IH]; intros [|k] Hk; simpl in *; try lia.
  - reflexivity.
  - now rewrite substring_all.
  - rewrite <- (IH k) by lia. reflexivity.
Qed.

Lemma endswith_iff s suffix :
  Str.endswith s suffix = true <-> exists p, s = p ++ suffix.
Proof.
  unfold Str.endswith. rewrite andb_true_iff, Nat.leb_le, String.eqb_eq.
  split.
  - intros [Hlen Hsub].
    exists (substring 0 (String.length s - String.length suffix) s).
    pose proof (substring_split s (String.length s - String.length suffix)
                  ltac:(lia)) as E.
    replace (String.length s - (String.length s - String.length suffix))%nat
      with (String.length suffix) in E by lia.
    now rewrite Hsub in E.
  - intros [p ->]. rewrite append_length. split; [lia|].
    replace (String.length p + String.length suffix - String.length suffix)%nat
      with (String.length p) by lia.
    apply substring_after.
Qed.

(** X6. Before the deadline the domain test lets through exactly the
    addresses whose normalized form is some text followed by [@stevens.edu]:
    [create_entry] answers with the 400 of the domain in every other case,
    and only then. *)
Theorem domain_test_is_suffix now server_now entry db :
  datetime_lt now BRACKET_DEADLINE = true ->
  (fst (create_entry now server_now entry db)
   = HTTPException 400 "Use your @stevens.edu email"
   <-> ~ exists p, Str.strip (Str.lower (EntryCreate.email entry))
                   = p ++ "@stevens.edu").
Proof.
  intros Hlt. apply datetime_lt_ge in Hlt.
  rewrite create_entry_unfold, Hlt. unfold email_norm_of.
  rewrite <- endswith_iff.
  destruct (Str.endswith _ _).
  - destruct (query_first _ db); split; try discriminate; congruence.
  - split; [discriminate|reflexivity].
Qed.

Lemma domain_test_is_suffix_witness :
  fst (create_entry before_deadline 300
         (EntryCreate.mk "Mal" "mal@stevens.edu.example.com" None) [])
  = HTTPException 400 "Use your @stevens.edu email".
Proof.
  apply (domain_test_is_suffix before_deadline 300
           (EntryCreate.mk "Mal" "mal@stevens.edu.example.com" None) []
           eq_refl).
  rewrite <- endswith_iff. discriminate.
Defined.

(* ================================================================= *)
(** ** More on the lookups *)

(** X7. [get_entry] and [view_bracket] answer 404 exactly when no row has
    the id asked for. *)
Theorem lookup_not_found_iff entry_id db :
  (get_entry entry_id db = HTTPException 404 "Entry not found"
   <-> forall e, In e db -> Entry.id e <> entry_id)
  /\ (view_bracket entry_id db = HTTPException 404 "Entry not found"
      <-> forall e, In e db -> Entry.id e <> entry_id).
Proof.
  assert (Hq : query_first (fun r => Entry.id r =? entry_id) db = None
               <-> forall e, In e db -> Entry.id e <> entry_id).
  { unfold query_first. rewrite find_none_iff.
    split; intros H e He; apply Z.eqb_neq; now apply H. }
  rewrite <- Hq. unfold get_entry, view_bracket.
  destruct (query_first _ db) as [e|];
    [destruct (load_bracket (Entry.bracket e))|];
    repeat split; intros; try discriminate; reflexivity.
Qed.

Lemma lookup_not_found_iff_witness :
  get_entry 9 [row_open; row_locked] = HTTPException 404 "Entry not found"
  /\ view_bracket 9 [row_open; row_locked]
     = HTTPException 404 "Entry not found".
Proof.
  destruct (lookup_not_found_iff 9 [row_open; row_locked]) as [[_ H1] [_ H2]].
  split; [apply H1|apply H2]; intros e [<-|[<-|[]]]; discriminate.
Defined.



(* ================================================================= *)
(** ** More on the list of entries *)




Lemma bracket_on_file_loads e :
  bracket_on_file e -> exists b, load_bracket (Entry.bracket e) = Some b.
Proof.
  intros [-> | (d & Hwf & ->)].
  - now exists (JObj []).
  - exists (JObj d). now apply load_bracket_dumps.
Qed.

Lemma list_items_total rows :
  Forall bracket_on_file rows ->
  exists items, list_items rows = Ok items
                /\ List.length items = List.length rows.
Proof.
  induction 1 as [|e rows He _ IH]; simpl; [now exists []|].
  destruct (bracket_on_file_loads e He) as (b & ->).
  destruct IH as (items & -> & Hlen).
  exists (list_item e b :: items). simpl. now rewrite Hlen.
Qed.

(** X10. On a table whose brackets are as the requests leave them (none, or
    the text of a submitted document) no read fails on the decoding:
    [list_entries] shows a record for every row, and [get_entry] and
    [view_bracket] never end in a server error. *)
Theorem reads_never_fail_on_submitted db :
  Forall bracket_on_file db ->
  (exists items, list_entries db = Ok items
                 /\ List.length items = List.length db)
  /\ (forall entry_id exc,
         get_entry entry_id db <> Uncaught exc
         /\ view_bracket entry_id db <> Uncaught exc).
Proof.
  intros Hdb. split.
  - unfold list_entries.
    destruct (list_items_total (order_by by_created_at db)) as (items & H & L).
    + apply (Permutation_Forall
               (Permutation_sym (order_by_perm by_created_at db)) Hdb).
    + exists items. split; [exact H|]. rewrite L.
      apply Permutation_length, order_by_perm.
  - intros entry_id exc. unfold get_entry, view_bracket.
    destruct (query_first _ db) as [e|] eqn:Hq; [|split; discriminate].
    apply find_some in Hq. destruct Hq as [Hin _].
    rewrite Forall_forall in Hdb.
    destruct (bracket_on_file_loads e (Hdb e Hin)) as (b & ->).
    split; discriminate.
Qed.

Lemma reads_never_fail_on_submitted_witness :
  exists items, list_entries [row_open; row_submitted] = Ok items
                /\ List.length items = 2%nat.
Proof.
  refine (proj1 (reads_never_fail_on_submitted [row_open; row_submitted] _)).
  constructor; [now left|]. constructor; [|constructor].
  right. exists [("old", JInt 1); ("champion", JStr "UNC")]. now split.
Defined.

(* ================================================================= *)
(** ** More on submissions *)

Lemma list_items_in rows items r :
  list_items rows = Ok items -> In r rows ->
  exists b, load_bracket (Entry.bracket r) = Some b
            /\ In (list_item r b) items.
Proof.
  revert items. induction rows as [|e rows IH]; simpl; intros items H Hin;
    [destruct Hin|].
  destruct (load_bracket (Entry.bracket e)) as [b|] eqn:Hb; [|discriminate].
  destruct (list_items rows) as [rest| |]; try discriminate.
  injection H as <-. destruct Hin as [->|Hin].
  - exists b. split; [exact Hb|now left].
  - destruct (IH rest eq_refl Hin) as (b' & Hb' & Hin').
    exists b'. split; [exact Hb'|now right].
Qed.

Lemma update_bracket_on_file entry_id d db :
  wf_json (JObj d) = true ->
  Forall bracket_on_file db ->
  Forall bracket_on_file (update_bracket entry_id (Json.dumps (JObj d)) db).
Proof.
  intros Hwf. induction 1 as [|e db He Hdb IH]; simpl; [constructor|].
  destruct (Entry.id e =? entry_id); constructor; auto.
  right. exists d. now split.
Qed.

(** X11. After a submission that succeeds, on a table whose brackets are as
    the requests leave them, [list_entries] succeeds and has a record of the
    entry's id whose bracket is the document submitted. *)
Theorem submitted_bracket_is_listed now entry_id bracket db e :
  datetime_lt now BRACKET_DEADLINE = true ->
  query_first (fun r => Entry.id r =? entry_id) db = Some e ->
  Entry.locked e = false ->
  wf_json (JObj bracket) = true ->
  Forall bracket_on_file db ->
  exists items item,
    list_entries (snd (submit_bracket now entry_id bracket db)) = Ok items
    /\ In item items
    /\ dict_get "id" item = Some (JInt entry_id)
    /\ dict_get "bracket" item = Some (JObj bracket).
Proof.
  intros Hlt He Hl Hwf Hdb.
  rewrite (submit_bracket_ok now entry_id bracket db e Hlt He Hl).
  cbn [snd]. set (txt := Json.dumps (JObj bracket)).
  set (db' := update_bracket entry_id txt db).
  assert (Hin : In (Entry.with_bracket e txt) db').
  { pose proof (query_updated entry_id txt db e He) as Hq.
    apply find_some in Hq. tauto. }
  assert (Hid : Entry.id e = entry_id).
  { apply find_some in He. destruct He as [_ He]. now apply Z.eqb_eq. }
  unfold list_entries.
  destruct (list_items_total (order_by by_created_at db')) as (items & H & _).
  { apply (Permutation_Forall
             (Permutation_sym (order_by_perm by_created_at db'))).
    now apply update_bracket_on_file. }
  assert (Hin' : In (Entry.with_bracket e txt) (order_by by_created_at db')).
  { apply (Permutation_in _ (Permutation_sym (order_by_perm _ db')) Hin). }
  destruct (list_items_in _ _ _ H Hin') as (b & Hb & Hitem).
  cbn [Entry.with_bracket Entry.bracket] in Hb. unfold txt in Hb.
  rewrite (load_bracket_dumps _ Hwf) in Hb. injection Hb as <-.
  exists items, (list_item (Entry.with_bracket e txt) (JObj bracket)).
  repeat split; auto. cbn. now rewrite Hid.
Qed.

Lemma submitted_bracket_is_listed_witness :
  exists items item,
    list_entries (snd (submit_bracket before_deadline 1 picks
                         [row_open; row_submitted])) = Ok items
    /\ In item items
    /\ dict_get "id" item = Some (JInt 1)
    /\ dict_get "bracket" item = Some (JObj picks).
Proof.
  apply (submitted_bracket_is_listed before_deadline 1 picks
           [row_open; row_submitted] row_open);
    try reflexivity.
  constructor; [now left|]. constructor; [|constructor].
  right. exists [("old", JInt 1); ("champion", JStr "UNC")]. now split.
Defined.

Lemma update_bracket_twice entry_id txt1 txt2 db :
  update_bracket entry_id txt2 (update_bracket entry_id txt1 db)
  = update_bracket entry_id txt2 db.
Proof.
  induction db as [|e db IH]; simpl; [reflexivity|].
  destruct (Entry.id e =? entry_id) eqn:He; simpl; rewrite He;
    [reflexivity|now rewrite IH].
Qed.

(** X12. Of two submissions to one entry, both accepted, the later one
    wins: the table is the one the later submission alone would have left. *)
Theorem later_submission_wins now1 now2 entry_id first second db e :
  datetime_lt now1 BRACKET_DEADLINE = true ->
  datetime_lt now2 BRACKET_DEADLINE = true ->
  query_first (fun r => Entry.id r =? entry_id) db = Some e ->
  Entry.locked e = false ->
  is_ok (fst (submit_bracket now1 entry_id first db)) = true
  /\ is_ok (fst (submit_bracket now2 entry_id second
                   (snd (submit_bracket now1 entry_id first db)))) = true
  /\ snd (submit_bracket now2 entry_id second
            (snd (submit_bracket now1 entry_id first db)))
     = snd (submit_bracket now2 entry_id second db).
Proof.
  intros H1 H2 He Hl.
  rewrite (submit_bracket_ok now1 entry_id first db e H1 He Hl). cbn [fst snd].
  pose proof (query_updated entry_id (Json.dumps (JObj first)) db e He) as Hq.
  rewrite (submit_bracket_ok now2 entry_id second _ _ H2 Hq Hl).
  rewrite (submit_bracket_ok now2 entry_id second db e H2 He Hl).
  cbn [fst snd]. repeat split. apply update_bracket_twice.
Qed.

Lemma later_submission_wins_witness :
  snd (submit_bracket before_deadline 5 picks
         (snd (submit_bracket before_deadline 5 [("champion", JStr "UNC")]
                 [row_open; row_submitted])))
  = snd (submit_bracket before_deadline 5 picks [row_open; row_submitted]).
Proof.
  apply (later_submission_wins before_deadline before_deadline 5
           [("champion", JStr "UNC")] picks [row_open; row_submitted]
           row_submitted); reflexivity.
Defined.

Lemma query_other_id entry_id other txt db :
  other <> entry_id ->
  query_first (fun r => Entry.id r =? other) (update_bracket entry_id txt db)
  = query_first (fun r => Entry.id r =? other) db.
Proof.
  intros Hne. unfold query_first.
  induction db as [|e db IH]; simpl; [reflexivity|].
  destruct (Entry.id e =? entry_id) eqn:He; simpl.
  - apply Z.eqb_eq in He.
    assert (Ho : (Entry.id e =? other) = false) by (apply Z.eqb_neq; lia).
    now rewrite Ho.
  - destruct (Entry.id e =? other); [reflexivity|exact IH].
Qed.

(** X13. A submission, accepted or refused, changes nothing in what
    [get_entry] and [view_bracket] show of the entries under other ids. *)
Theorem submission_leaves_other_entries now entry_id bracket db other :
  other <> entry_id ->
  get_entry other (snd (submit_bracket now entry_id bracket db))
  = get_entry other db
  /\ view_bracket other (snd (submit_bracket now entry_id bracket db))
     = view_bracket other db.
Proof.
  intros Hne.
  destruct (submit_bracket_table now entry_id bracket db) as [-> | ->];
    [now split|].
  unfold get_entry, view_bracket. now rewrite (query_other_id _ _ _ _ Hne).
Qed.

Lemma submission_leaves_other_entries_witness :
  get_entry 1 (snd (submit_bracket before_deadline 5 picks
                      [row_open; row_submitted]))
  = get_entry 1 [row_open; row_submitted].
Proof.
  apply (submission_leaves_other_entries before_deadline 5 picks
           [row_open; row_submitted] 1).
  discriminate.
Defined.

Section OrderByFrame.

Variable le : Entry.t -> Entry.t -> bool.
Hypothesis le_frame : forall a a' b b',
  same_but_bracket a a' -> same_but_bracket b b' -> le a b = le a' b'.

Lemma insert_by_frame x x' l l' :
  same_but_bracket x x' -> Forall2 same_but_bracket l l' ->
  Forall2 same_but_bracket (insert_by le x l) (insert_by le x' l').
Proof.
  intros Hx. induction 1 as [|y y' l l' Hy Hl IH]; simpl.
  - constructor; [exact Hx|constructor].
  - rewrite <- (le_frame x x' y y' Hx Hy).
    destruct (le x y).
    + constructor; [exact Hx|]. now constructor.
    + constructor; [exact Hy|exact IH].
Qed.

Lemma order_by_frame l l' :
  Forall2 same_but_bracket l l' ->
  Forall2 same_but_bracket (order_by le l) (order_by le l').
Proof.
  induction 1 as [|x x' l l' Hx Hl IH]; simpl; [constructor|].
  now apply insert_by_frame.
Qed.

End OrderByFrame.

Lemma leaderboard_item_frame l l' :
  Forall2 same_but_bracket l l' ->
  map leaderboard_item l = map leaderboard_item l'.
Proof.
  induction 1 as [|x x' l l' Hx Hl IH]; simpl; [reflexivity|].
  rewrite IH. f_equal. unfold leaderboard_item.
  destruct Hx as (-> & -> & _ & -> & -> & -> & _). reflexivity.
Qed.

(** X14. A submission, accepted or refused, leaves the leaderboard as it
    was. *)
Theorem submission_keeps_leaderboard now entry_id bracket db :
  leaderboard (snd (submit_bracket now entry_id bracket db)) = leaderboard db.
Proof.
  destruct (submit_bracket_table now entry_id bracket db) as [-> | ->];
    [reflexivity|].
  unfold leaderboard, leaderboard_rows. symmetry.
  apply leaderboard_item_frame, order_by_frame.
  - intros a a' b b' (_ & _ & _ & _ & Hsa & _ & Hca)
                     (_ & _ & _ & _ & Hsb & _ & Hcb).
    unfold by_score_desc_created_at. now rewrite Hsa, Hsb, Hca, Hcb.
  - apply update_bracket_frame.
Qed.

(* ================================================================= *)
(** ** What the requests make of the table *)

Lemma update_bracket_api_rows entry_id txt db :
  Forall api_row db -> Forall api_row (update_bracket entry_id txt db).
Proof.
  induction 1 as [|e db He Hdb IH]; simpl; [constructor|].
  destruct (Entry.id e =? entry_id); constructor; auto.
Qed.

Lemma step_keeps_api_rows db db' :
  step db db' -> Forall api_row db -> Forall api_row db'.
Proof.
  intros Hs Hdb. destruct Hs.
  - rewrite create_entry_unfold.
    destruct (datetime_ge now BRACKET_DEADLINE); [exact Hdb|].
    destruct (Str.endswith (email_norm_of entry) "@stevens.edu") eqn:Hdom;
      [|exact Hdb].
    destruct (query_first _ db); [exact Hdb|]. cbn [snd].
    apply Forall_app. split; [exact Hdb|]. constructor; [|constructor].
    repeat split; [apply normalize_normalized|exact Hdom].
  - destruct (submit_bracket_table now entry_id bracket db) as [-> | ->];
      [exact Hdb|]. now apply update_bracket_api_rows.
Qed.

Lemma reachable_api_rows db : reachable [] db -> Forall api_row db.
Proof.
  induction 1 as [|db1 db2 _ IH Hs]; [constructor|].
  now apply (step_keeps_api_rows db1 db2).
Qed.

(** X15. In a table made by the requests alone, from the empty one, every
    entry has [score = 0] and [locked = false], its email is normalized and
    ends with [@stevens.edu], and no two entries have the same email. *)
Theorem requests_make_api_rows db :
  reachable [] db -> Forall api_row db /\ uq_entries_email db.
Proof.
  intros H. split; [now apply reachable_api_rows|].
  now destruct (reachable_constraints db H) as (_ & Hu & _).
Qed.

Lemma requests_make_api_rows_witness :
  Forall api_row (snd (create_entry before_deadline 300 ann []))
  /\ uq_entries_email (snd (create_entry before_deadline 300 ann [])).
Proof.
  apply (requests_make_api_rows (snd (create_entry before_deadline 300 ann []))).
  eapply reachable_step; [apply reachable_refl|apply step_create_entry].
Defined.

(** X16. The requests alone lock nothing: in a table they have made, before
    the deadline, a submission to any id that exists is accepted. *)
Theorem submission_accepted_on_api_table now entry_id bracket db e :
  reachable [] db ->
  datetime_lt now BRACKET_DEADLINE = true ->
  query_first (fun r => Entry.id r =? entry_id) db = Some e ->
  submit_bracket now entry_id bracket db
  = (Ok [("status", JStr "saved"); ("entry_id", JInt entry_id)],
     update_bracket entry_id (Json.dumps (JObj bracket)) db).
Proof.
  intros Hr Hlt He. apply (submit_bracket_ok now entry_id bracket db e Hlt He).
  pose proof (reachable_api_rows db Hr) as Hdb.
  rewrite Forall_forall in Hdb. apply find_some in He.
  now destruct (Hdb e (proj1 He)) as (_ & Hl & _).
Qed.

Lemma submission_accepted_on_api_table_witness :
  is_ok (fst (submit_bracket before_deadline 1 picks
                (snd (create_entry before_deadline 300 ann [])))) = true.
Proof.
  rewrite (submission_accepted_on_api_table before_deadline 1 picks
             (snd (create_entry before_deadline 300 ann []))
             (new_row 300 ann [])); try reflexivity.
  eapply reachable_step; [apply reachable_refl|apply step_create_entry].
Defined.

Lemma same_but_bracket_refl l : Forall2 same_but_bracket l l.
Proof. induction l; constructor; auto. now repeat split. Qed.

Lemma same_but_bracket_trans l1 : forall l2 l3,
  Forall2 same_but_bracket l1 l2 -> Forall2 same_but_bracket l2 l3 ->
  Forall2 same_but_bracket l1 l3.
Proof.
  induction l1 as [|a l1 IH]; intros l2 l3 H12 H23;
    inversion H12; subst; inversion H23; subst; constructor.
  - unfold same_but_bracket in *. intuition congruence.
  - eapply IH; eauto.
Qed.

(** X17. No request removes or reorders a row: whatever requests are
    served, the rows that were there stay in place, each with every column
    but [bracket] as it was, and new rows come after them. *)
Theorem requests_keep_rows db db' :
  reachable db db' ->
  exists kept added,
    db' = (kept ++ added)%list /\ Forall2 same_but_bracket db kept.
Proof.
  induction 1 as [|db1 db2 _ (kept & added & -> & Hk) Hs].
  - exists db, []. split; [now rewrite List.app_nil_r|].
    apply same_but_bracket_refl.
  - inversion Hs as [now t entry d Hd E|now entry_id bracket d Hd E]; subst.
    + destruct (create_entry_table now t entry (kept ++ added)%list)
        as [-> | [-> _]].
      * now exists kept, added.
      * exists kept, (added ++ [new_row t entry (kept ++ added)%list])%list.
        split; [now rewrite List.app_assoc|exact Hk].
    + destruct (submit_bracket_table now entry_id bracket (kept ++ added)%list)
        as [-> | ->].
      * now exists kept, added.
      * pose proof (update_bracket_frame entry_id (Json.dumps (JObj bracket))
                      (kept ++ added)%list) as Hf.
        apply Forall2_app_inv_l in Hf.
        destruct Hf as (kept' & added' & Hk' & _ & ->).
        exists kept', added'. split; [reflexivity|].
        now apply (same_but_bracket_trans db kept kept').
Qed.

Lemma requests_keep_rows_witness :
  exists kept added,
    snd (create_entry before_deadline 300 ann
           (snd (submit_bracket before_deadline 2 picks [row_locked])))
    = (kept ++ added)%list
    /\ Forall2 same_but_bracket [row_locked] kept.
Proof.
  apply (requests_keep_rows [row_locked]).
  eapply reachable_step;
    [eapply reachable_step; [apply reachable_refl|apply step_submit_bracket]
    |apply step_create_entry].
Defined.

Lemma find_app_found {A} (p : A -> bool) (l l' : list A) (x : A) :
  find p l = Some x -> find p (l ++ l')%list = Some x.
Proof.
  induction l as [|y l IH]; simpl; [discriminate|].
  destruct (p y); [trivial|exact IH].
Qed.

(** X18. A registration, accepted or refused, changes nothing in what
    [get_entry] and [view_bracket] show under an id that was there. *)
Theorem registration_leaves_entries now server_now entry db entry_id e :
  query_first (fun r => Entry.id r =? entry_id) db = Some e ->
  get_entry entry_id (snd (create_entry now server_now entry db))
  = get_entry entry_id db
  /\ view_bracket entry_id (snd (create_entry now server_now entry db))
     = view_bracket entry_id db.
Proof.
  intros He.
  destruct (create_entry_table now server_now entry db) as [-> | [-> _]];
    [now split|].
  unfold get_entry, view_bracket, query_first in *.
  now rewrite (find_app_found _ db _ e He), He.
Qed.

Lemma registration_leaves_entries_witness :
  get_entry 2 (snd (create_entry before_deadline 300 ann [row_locked]))
  = get_entry 2 [row_locked].
Proof.
  apply (registration_leaves_entries before_deadline 300 ann [row_locked]
           2 row_locked).
  reflexivity.
Defined.

(* ================================================================= *)
(** ** More on the leaderboard *)

(** X19. The leaderboard has one record for each row of the table, and a
    record has the keys id, name, username, score and locked: neither the
    email nor the bracket of an entry is shown there. *)
Theorem leaderboard_records db :
  List.length (leaderboard db) = List.length db
  /\ Forall (fun item =>
               dict_keys item = ["id"; "name"; "username"; "score"; "locked"]
               /\ dict_get "email" item = None
               /\ dict_get "bracket" item = None)
            (leaderboard db).
Proof.
  unfold leaderboard, leaderboard_rows. split.
  - rewrite length_map.
    apply Permutation_length, order_by_perm.
  - apply Forall_forall. intros item Hin.
    apply in_map_iff in Hin. destruct Hin as (e & <- & _).
    repeat split.
Qed.
